(** * Make_Somatic_Mutation_Overview: a shallow embedding and its properties

    The script reads annotated VCF records, filters them per sample
    (allele support, depth, variant-allele fraction, population and cohort
    frequency), resolves the most damaging annotated effect, and reduces the
    effects seen over a gene to one call per sample.

    Modelling conventions.
    - Python exceptions are values of [exn]; a computation that may raise
      has type [result A].
    - Python floats are modelled by exact rationals ([Q]): the vocabulary
      scores and the thresholds are the decimal numbers written in the
      script or given on the command line, a quotient of two integers is the
      exact quotient.  The rounding of a double, and the [OverflowError] of
      an integer too large for one, are outside the model.
    - The script is read as Python 2, the only version it runs on (it
      hands a file opened in text mode to the reader of the compressed
      data): [/] on two integers is floor division, a null compares below
      every number and a number below every text, and a dict is iterated
      in an arbitrary order.
    - [debug] printing has no effect on results and is left out; the string
      [log] that [main] builds is left out too, but every sub-expression of
      it that can raise is evaluated at the place where the script does.
    - Three things the script relies on are parameters of the development
      (section variables): [float] applied to a text value, [round(x, 2)],
      and the answer of the remote service behind [get_canonical]
      ([HTTPError] stands for a failed request).  The loops around the core
      take two more: the remote lookup [get_geneinfo] and the region query
      [fetch] of the file at hand. *)

From Stdlib Require Import String Ascii List ZArith QArith Bool Lia.
Import ListNotations.

Local Open Scope string_scope.
Local Open Scope list_scope.
Local Open Scope Z_scope.

(** ** Exceptions and fallible computations *)

Inductive exn : Type :=
| KeyError
| AttributeError
| TypeError
| ValueError
| IndexError
| ZeroDivisionError
| HTTPError.

Inductive result (A : Type) : Type :=
| Ok (a : A)
| Raise (e : exn).

Arguments Ok {A} a.
Arguments Raise {A} e.

Definition bind {A B : Type} (c : result A) (k : A -> result B) : result B :=
  match c with
  | Ok a => k a
  | Raise e => Raise e
  end.

Notation "x <- c ;; k" := (bind c (fun x => k))
  (at level 61, c at next level, right associativity).
Notation "' pat <- c ;; k" := (bind c (fun x => match x with pat => k end))
  (at level 61, pat pattern, c at next level, right associativity).

(** ** Rational comparisons *)

Definition Qltb (x y : Q) : bool := negb (Qle_bool y x).

(** ** Python built-ins on strings and lists *)

(** [s.split(sep)] for a one-character separator. *)
Fixpoint split (sep : ascii) (s : string) : list string :=
  match s with
  | EmptyString => [EmptyString]
  | String c s' =>
      if Ascii.eqb c sep then EmptyString :: split sep s'
      else match split sep s' with
           | [] => [String c EmptyString]
           | w :: ws => String c w :: ws
           end
  end.

(** [s.replace(c, "")] for a one-character [c]. *)
Fixpoint remove_char (c : ascii) (s : string) : string :=
  match s with
  | EmptyString => EmptyString
  | String d s' =>
      if Ascii.eqb d c then remove_char c s' else String d (remove_char c s')
  end.

(** [needle in hay] on strings: substring test. *)
Fixpoint str_contains (needle hay : string) : bool :=
  if prefix needle hay then true
  else match hay with
       | EmptyString => false
       | String _ hay' => str_contains needle hay'
       end.

(** [x in l] on a list of strings. *)
Definition str_in (x : string) (l : list string) : bool :=
  existsb (String.eqb x) l.

(** [l[i]] for a literal index [i >= 0]. *)
Definition item {A : Type} (l : list A) (i : nat) : result A :=
  match nth_error l i with
  | Some a => Ok a
  | None => Raise IndexError
  end.

(** [l[i]] for a computed index: negative indices count from the end. *)
Definition py_index {A : Type} (l : list A) (i : Z) : result A :=
  let n := Z.of_nat (length l) in
  if (0 <=? i) && (i <? n) then item l (Z.to_nat i)
  else if (i <? 0) && (0 <=? n + i) then item l (Z.to_nat (n + i))
  else Raise IndexError.

(** [l[-1]]. *)
Definition last_item {A : Type} (l : list A) : result A := py_index l (-1).

Definition digit_value (c : ascii) : option Z :=
  let n := nat_of_ascii c in
  if (48 <=? n)%nat && (n <=? 57)%nat then Some (Z.of_nat (n - 48)) else None.

Fixpoint digits_value (s : string) (acc : Z) : option Z :=
  match s with
  | EmptyString => Some acc
  | String c s' =>
      match digit_value c with
      | Some d => digits_value s' (10 * acc + d)
      | None => None
      end
  end.

(** [int(s)] on the text of a genotype index: an optional sign and decimal
    digits; anything else raises [ValueError]. *)
Definition py_int (s : string) : result Z :=
  let unsigned (t : string) : result Z :=
    match t with
    | EmptyString => Raise ValueError
    | _ => match digits_value t 0 with
           | Some n => Ok n
           | None => Raise ValueError
           end
    end in
  match s with
  | String "-" t => n <- unsigned t ;; Ok (- n)
  | String "+" t => unsigned t
  | _ => unsigned s
  end.

(** [max(l)] on numbers: the first greatest element; [ValueError] on []. *)
Fixpoint max_from (m : Q) (l : list Q) : Q :=
  match l with
  | [] => m
  | x :: l' => max_from (if Qltb m x then x else m) l'
  end.

Definition py_max (l : list Q) : result Q :=
  match l with
  | [] => Raise ValueError
  | x :: l' => Ok (max_from x l')
  end.

(** [numpy.argmax(l)]: index of the first greatest element. *)
Fixpoint argmax_from (best : nat) (m : Q) (i : nat) (l : list Q) : nat :=
  match l with
  | [] => best
  | x :: l' =>
      if Qltb m x then argmax_from i x (S i) l' else argmax_from best m (S i) l'
  end.

Definition argmax (l : list Q) : result nat :=
  match l with
  | [] => Raise ValueError
  | x :: l' => Ok (argmax_from 0%nat x 1%nat l')
  end.

(** A dict with string keys, as the list of its items. *)
Fixpoint lookup {V : Type} (k : string) (d : list (string * V)) : option V :=
  match d with
  | [] => None
  | (k', v) :: d' => if String.eqb k k' then Some v else lookup k d'
  end.

Arguments lookup {V} k d : simpl nomatch.

(** [d[k]]. *)
Definition getitem {V : Type} (d : list (string * V)) (k : string) : result V :=
  match lookup k d with
  | Some v => Ok v
  | None => Raise KeyError
  end.

(** ** Data model *)

(** A value of a FORMAT field of one sample, as PyVCF hands it over. *)
Inductive gvalue : Type :=
| GNone
| GInt (n : Z)
| GList (l : list (option Z))
| GStr (s : string).

(** The genotype block of one sample: field name to value. *)
Definition call : Type := list (string * gvalue).

(** A value of the INFO dict: a list of numbers (with nulls) or of texts. *)
Inductive info_value : Type :=
| InfoNums (l : list (option Q))
| InfoStrs (l : list string).

Record vcf_record : Type := {
  CHROM : string;
  POS : Z;
  REF : string;
  ALT : list (option string);
  INFO : list (string * info_value);
  samples : list (string * call)
}.

(** The command-line options the core reads, after [int]/[float]. *)
Record options : Type := {
  canonical : bool;
  mindepth : Z;
  minvaf : Q;
  popfreq : Q;
  cohfreq : Q;
  mineff : Q;
  format : string
}.

Definition default_options : options := {|
  canonical := false;
  mindepth := 10;
  minvaf := (25 # 100)%Q;
  popfreq := (5 # 100)%Q;
  cohfreq := (10 # 100)%Q;
  mineff := (150 # 100)%Q;
  format := "GATK"
|}.

(** ** Effect vocabulary *)

Definition vocabulary : list (string * Q) := [
  ("None", (-1)%Q); ("clean", 0%Q);
  ("sequence_feature", 0%Q); ("intron_variant", 0%Q);
  ("3_prime_UTR_variant", 0%Q); ("5_prime_UTR_variant", 0%Q);
  ("non_coding_exon_variant", 0%Q);
  ("TF_binding_site_variant", (5 # 10)%Q); ("splice_region_variant", (5 # 10)%Q);
  ("synonymous_variant", 1%Q);
  ("missense_variant", (15 # 10)%Q);
  ("splice_donor_variant", 2%Q); ("splice_acceptor_variant", 2%Q);
  ("inframe_deletion", (21 # 10)%Q); ("inframe_insertion", (21 # 10)%Q);
  ("disruptive_inframe_deletion", (25 # 10)%Q);
  ("disruptive_inframe_insertion", (25 # 10)%Q);
  ("5_prime_UTR_premature_start_codon_gain_variant", 3%Q);
  ("stop_gained", 4%Q); ("nonsense_mediated_decay", 4%Q);
  ("frameshift_variant", 4%Q)
].

Definition mapping : list (string * string) := [
  ("synonymous_variant", "Silent");
  ("missense_variant", "Missense_Mutation");
  ("disruptive_inframe_deletion", "Frame_Shift_Del");
  ("disruptive_inframe_insertion", "Frame_Shift_Ins");
  ("5_prime_UTR_premature_start_codon_gain_variant", "Nonsense_Mutation");
  ("stop_gained", "Nonsense_Mutation");
  ("nonsense_mediated_decay", "Nonsense_Mutation");
  ("frameshift_variant", "Frame_Shift_???")
].

Definition FREQ_FIELDS : list string :=
  ["dbNSFP_ExAC_AF"; "dbNSFP_ExAC_Adj_AF"; "GoNLv5_Freq"; "GoNLv5_AF"].

(** [toselect = [k for k,v in vocabulary.items() if v >= float(options.mineff)]] *)
Definition toselect (o : options) : list string :=
  map fst (filter (fun kv => Qle_bool (mineff o) (snd kv)) vocabulary).

(** [check_arguments] sets the two keys from [options.format]; they stay
    the empty string for any other format. *)
Definition DEPTH_KEY (o : options) : string :=
  if String.eqb (format o) "FREEB" then "DP"
  else if String.eqb (format o) "GATK" then "AD"
  else "".

Definition VAF_KEY (o : options) : string :=
  if String.eqb (format o) "FREEB" then "DPR"
  else if String.eqb (format o) "GATK" then "AD"
  else "".

(** ** Genotype-field access *)

(** [sample_vcf[key]] is [getattr(sample_vcf.data, key)]. *)
Definition call_getitem (sample_vcf : call) (key : string) : result gvalue :=
  match lookup key sample_vcf with
  | Some v => Ok v
  | None => Raise AttributeError
  end.

Fixpoint sum_from (acc : Z) (l : list (option Z)) : result Z :=
  match l with
  | [] => Ok acc
  | Some n :: l' => sum_from (acc + n) l'
  | None :: _ => Raise TypeError
  end.

(** [sum(v)]. *)
Definition py_sum (v : gvalue) : result Z :=
  match v with
  | GList l => sum_from 0 l
  | GStr EmptyString => Ok 0
  | _ => Raise TypeError
  end.

(** [v[1:]]. *)
Definition py_tail (v : gvalue) : result gvalue :=
  match v with
  | GList l => Ok (GList (tl l))
  | GStr s => Ok (GStr (match s with EmptyString => s | String _ s' => s' end))
  | _ => Raise TypeError
  end.

(** [a*1.0/b]. *)
Definition true_div (a b : Z) : result Q :=
  if b =? 0 then Raise ZeroDivisionError
  else Ok (inject_Z a / inject_Z b)%Q.

(** ** The quality checks on one sample's genotype block *)

Definition check_ad (o : options) (sample_vcf : call) : bool :=
  match call_getitem sample_vcf (DEPTH_KEY o) with
  | Raise _ => false
  | Ok GNone => false
  | Ok _ => true
  end.

Definition check_depth (o : options) (sample_vcf : call) : result bool :=
  d <- call_getitem sample_vcf (DEPTH_KEY o) ;;
  match d with
  | GInt n => if n <? mindepth o then Ok false else Ok true
  | _ => s <- py_sum d ;; if s <? mindepth o then Ok false else Ok true
  end.

(** [sum(sample_vcf[VAF_KEY][1:])] *)
Definition alt_support (o : options) (sample_vcf : call) : result Z :=
  v <- call_getitem sample_vcf (VAF_KEY o) ;;
  t <- py_tail v ;;
  py_sum t.

Definition check_vaf (o : options) (sample_vcf : call) : result bool :=
  d <- call_getitem sample_vcf (DEPTH_KEY o) ;;
  match d with
  | GInt n =>
      a <- alt_support o sample_vcf ;;
      q <- true_div a n ;;
      if Qltb q (minvaf o) then Ok false else Ok true
  | _ =>
      a <- alt_support o sample_vcf ;;
      s <- py_sum d ;;
      q <- true_div a s ;;
      if Qltb q (minvaf o) then Ok false else Ok true
  end.

(** The expression formatted into [log] after the depth check:
    [sum(genotype[VAF_KEY][1:])*1.0/sum(genotype[DEPTH_KEY])]. *)
Definition logged_vaf (o : options) (sample_vcf : call) : result Q :=
  a <- alt_support o sample_vcf ;;
  d <- call_getitem sample_vcf (DEPTH_KEY o) ;;
  s <- py_sum d ;;
  true_div a s.

(** ** Severity lookup and the worst effect of a sequence *)

(** [vocabulary[eff]] *)
Definition severity (eff : string) : result Q := getitem vocabulary eff.

Fixpoint effectvalues (effects : list string) : result (list Q) :=
  match effects with
  | [] => Ok []
  | eff :: effects' =>
      v <- severity eff ;;
      vs <- effectvalues effects' ;;
      Ok (v :: vs)
  end.

Definition select_maximum_effect (effects : list string) : result nat :=
  vs <- effectvalues effects ;;
  argmax vs.

(** ** Choice of the canonical transcript ([get_canonical], after the request) *)

(** One entry of [json["Transcript"]] in the answer of the lookup. *)
Record transcript_entry : Type := {
  entry_id : string;
  entry_is_canonical : Z
}.

(** The loop over [json["Transcript"]]: the id of the first entry with
    [is_canonical == 1]. *)
Fixpoint first_canonical (entries : list transcript_entry) : option string :=
  match entries with
  | [] => None
  | t :: entries' =>
      if entry_is_canonical t =? 1 then Some (entry_id t)
      else first_canonical entries'
  end.

(** What [get_canonical] returns for an answer with these transcripts: "if
    there is no canonical just take the first". *)
Definition canonical_of_answer (entries : list transcript_entry) : result string :=
  match first_canonical entries with
  | Some id => Ok id
  | None => t <- item entries 0 ;; Ok (entry_id t)
  end.

(** ** The sample loop of [main] *)

(** The key under which each sample of the file is entered in [df], [rdf]
    and [cdf], in the order of [enumerate(vcfread.samples)]; [None] stands
    for the initial value [False] of [samplename]. *)
Fixpoint name_samples (o : options) (all : list string) (i : nat)
    (todo : list string) : result (list (option string)) :=
  match todo with
  | [] => Ok []
  | sample :: todo' =>
      samplename <-
        (if String.eqb (format o) "GATK" then Ok (Some sample)
         else if String.eqb (format o) "FREEB" then
           s <- item all (i + 1) ;; Ok (Some s)
         else Ok None) ;;
      names <- name_samples o all (S i) todo' ;;
      Ok (samplename :: names)
  end.

Definition sample_keys (o : options) (vcf_samples : list string)
    : result (list (option string)) :=
  name_samples o vcf_samples 0 vcf_samples.

(** ** The gene list *)

(** The dict [get_geneinfo] builds from the answer of the lookup. *)
Record genedef : Type := {
  Chr : string;
  Start : Z;
  Stop : Z;
  SYMBOL : string;
  ENSEMBLID : string
}.

(** The characters [str.strip()] removes from a byte string: tab to
    carriage return, and the space. *)
Definition is_space (c : ascii) : bool :=
  let n := nat_of_ascii c in
  ((9 <=? n)%nat && (n <=? 13)%nat) || (n =? 32)%nat.

Fixpoint lstrip (s : string) : string :=
  match s with
  | EmptyString => EmptyString
  | String c s' => if is_space c then lstrip s' else s
  end.

Fixpoint rstrip (s : string) : string :=
  match s with
  | EmptyString => EmptyString
  | String c s' =>
      match rstrip s' with
      | EmptyString => if is_space c then EmptyString else String c EmptyString
      | r => String c r
      end
  end.

Definition strip (s : string) : string := rstrip (lstrip s).

(** [line.strip().split('\t')[3]] *)
Definition genesymbol_of (line : string) : result string :=
  item (split "009" (strip line)) 3.

(** ** Sample inputs

    One sample "S1" in the GATK layout, and records of the gene PIK3CA
    that differ in allele support, annotation and INFO keys. *)

(** Stand-ins for the three parameters of the development: of the texts
    only "0.2" and "0.01" parse as a float, rounding is to the nearest hundredth (ties to even) of the
    exact rational, and every gene has the same canonical transcript. *)
Definition sample_float (x : string) : result Q :=
  if String.eqb x "0.2" then Ok (2 # 10)%Q
  else if String.eqb x "0.01" then Ok (1 # 100)%Q
  else Raise ValueError.

Definition sample_round2 (q : Q) : Q :=
  let n := Qnum q * 100 in
  let d := Z.pos (Qden q) in
  let f := n / d in
  let r := n mod d in
  let up := if 2 * r <? d then false
            else if d <? 2 * r then true
            else Z.odd f in
  ((if up then f + 1 else f) # 100)%Q.

Definition sample_canonical (gene : string) : result string :=
  Ok "ENST00000263967".

Definition ann_of (allele effect protein : string) : string :=
  allele ++ "|" ++ effect
  ++ "|MODERATE|PIK3CA|ENSG00000121879|transcript|ENST00000263967|protein_coding|2/21|c.353G>T|"
  ++ protein ++ "|510/9093|353/3207|118/1068||".

Definition record_of (anns : list string) (ad : list Z)
    (more_info : list (string * info_value)) : vcf_record := {|
  CHROM := "3";
  POS := 178916876;
  REF := "G";
  ALT := [Some "T"];
  INFO := ("ANN", InfoStrs anns) :: more_info;
  samples := [("S1", [("GT", GStr "0/1"); ("AD", GList (map Some ad))])]
|}.

Definition mleaf_002 : list (string * info_value) :=
  [("MLEAF", InfoNums [Some (2 # 100)%Q])].

(** Passes every stage; one missense annotation for the called allele. *)
Definition rec_pass : vcf_record :=
  record_of [ann_of "T" "missense_variant" "p.Gly118Val"] [5; 15] mleaf_002.

(** Total support 7, below the default minimum depth of 10. *)
Definition rec_lowdepth : vcf_record :=
  record_of [ann_of "T" "missense_variant" "p.Gly118Val"] [3; 4] mleaf_002.

(** Variant-allele fraction 2/10, below the default minimum of 0.25. *)
Definition rec_lowvaf : vcf_record :=
  record_of [ann_of "T" "missense_variant" "p.Gly118Val"] [8; 2] mleaf_002.

(** Passes every stage; the effect is reportable and has no MAF name. *)
Definition rec_splice : vcf_record :=
  record_of [ann_of "T" "splice_donor_variant" ""] [5; 15] mleaf_002.

(** Two annotations for the called allele, of severity 1.0 and 4. *)
Definition rec_two : vcf_record :=
  record_of [ann_of "T" "synonymous_variant" "p.Gly118Gly";
             ann_of "T" "stop_gained" "p.Gly118*"] [5; 15] mleaf_002.

(** As [rec_pass], without the key "MLEAF". *)
Definition rec_no_mleaf : vcf_record :=
  record_of [ann_of "T" "missense_variant" "p.Gly118Val"] [5; 15] [].

(** As [rec_pass], with one population-frequency field: 0.2 and a null. *)
Definition rec_common : vcf_record :=
  record_of [ann_of "T" "missense_variant" "p.Gly118Val"] [5; 15]
            (("GoNLv5_AF", InfoNums [Some (2 # 10)%Q; None]) :: mleaf_002).

(** As [rec_pass], with population frequencies given as text: 0.01 and
    0.2, 0.01 alone, and one that is no number. *)
Definition rec_text : vcf_record :=
  record_of [ann_of "T" "missense_variant" "p.Gly118Val"] [5; 15]
            (("dbNSFP_ExAC_AF", InfoStrs ["0.01"; "0.2"]) :: mleaf_002).

Definition rec_text_rare : vcf_record :=
  record_of [ann_of "T" "missense_variant" "p.Gly118Val"] [5; 15]
            (("dbNSFP_ExAC_AF", InfoStrs ["0.01"]) :: mleaf_002).

Definition rec_text_bad : vcf_record :=
  record_of [ann_of "T" "missense_variant" "p.Gly118Val"] [5; 15]
            (("dbNSFP_ExAC_AF", InfoStrs ["0.01"; "."]) :: mleaf_002).

(** As [rec_pass], with a null, and with a text, as cohort frequency. *)
Definition rec_null_mleaf : vcf_record :=
  record_of [ann_of "T" "missense_variant" "p.Gly118Val"] [5; 15]
            [("MLEAF", InfoNums [None; Some (2 # 100)%Q])].

Definition rec_text_mleaf : vcf_record :=
  record_of [ann_of "T" "missense_variant" "p.Gly118Val"] [5; 15]
            [("MLEAF", InfoStrs ["0.02"])].

(** A record of another gene: its annotation does not mention PIK3CA. *)
Definition rec_other_gene : vcf_record :=
  record_of ["T|missense_variant|MODERATE|KRAS|ENSG00000133703|transcript|ENST00000256078|protein_coding|2/6|c.35G>T|p.Gly12Val|225/1119|35/570|12/189||"]
            [8; 2] mleaf_002.

Definition sgenot_of (vcf_rec : vcf_record) : call :=
  match lookup "S1" (samples vcf_rec) with
  | Some c => c
  | None => []
  end.

(** More sample inputs: other options, other genotype blocks, a swapped
    annotation list, a gene list and a region query. *)
Definition with_format (o : options) (f : string) : options :=
  {| canonical := canonical o; mindepth := mindepth o; minvaf := minvaf o;
     popfreq := popfreq o; cohfreq := cohfreq o; mineff := mineff o;
     format := f |}.

Definition freeb_options : options := with_format default_options "FREEB".

Definition varscan_options : options := with_format default_options "VARSCAN".

Definition canonical_options : options := {|
  canonical := true;
  mindepth := 10;
  minvaf := (25 # 100)%Q;
  popfreq := (5 # 100)%Q;
  cohfreq := (10 # 100)%Q;
  mineff := (150 # 100)%Q;
  format := "GATK"
|}.

Definition loose_options : options := {|
  canonical := false;
  mindepth := 5;
  minvaf := (10 # 100)%Q;
  popfreq := (10 # 100)%Q;
  cohfreq := (50 # 100)%Q;
  mineff := (150 # 100)%Q;
  format := "GATK"
|}.

(** A genotype block in the freebayes layout: scalar depth, list DPR. *)
Definition sgenot_freeb : call :=
  [("GT", GStr "0/1"); ("DP", GInt 20); ("DPR", GList [Some 5; Some 15])].

Definition sgenot_phased : call :=
  [("GT", GStr "1|1"); ("AD", GList [Some 5; Some 15])].

Definition sgenot_homref : call :=
  [("GT", GStr "0/0"); ("AD", GList [Some 5; Some 15])].

(** [rec_two] with its two annotations in the other order. *)
Definition rec_two_swapped : vcf_record :=
  record_of [ann_of "T" "stop_gained" "p.Gly118*";
             ann_of "T" "synonymous_variant" "p.Gly118Gly"] [5; 15] mleaf_002.

Definition sample_answer : list transcript_entry :=
  [ {| entry_id := "ENST00000462255"; entry_is_canonical := 0 |};
    {| entry_id := "ENST00000263967"; entry_is_canonical := 1 |} ].

Definition gene_PIK3CA : genedef :=
  {| Chr := "3"; Start := 178866311; Stop := 178957881;
     SYMBOL := "PIK3CA"; ENSEMBLID := "ENSG00000121879" |}.

Definition gene_KRAS : genedef :=
  {| Chr := "12"; Start := 25357723; Stop := 25403870;
     SYMBOL := "KRAS"; ENSEMBLID := "ENSG00000133703" |}.

Definition sample_geneinfo (symbol : string) : result genedef :=
  if String.eqb symbol "PIK3CA" then Ok gene_PIK3CA
  else if String.eqb symbol "KRAS" then Ok gene_KRAS
  else Raise HTTPError.

(** The file at hand has records on chromosome 3 only. *)
Definition sample_fetch (chrom : string) (first last : Z) : result (list vcf_record) :=
  if String.eqb chrom "3" then Ok [rec_pass] else Raise ValueError.

Definition gene_line (chrom first last symbol : string) : string :=
  chrom ++ String "009" (first ++ String "009" (last ++ String "009"
    (symbol ++ String "010" EmptyString))).

Definition sample_lines : list string :=
  [gene_line "3" "178866311" "178952497" "PIK3CA";
   gene_line "12" "25357723" "25403870" "KRAS";
   gene_line "3" "178866311" "178952497" "PIK3CA"].

Section Core.

(** [float(x)] for a text [x], [round(x, 2)], and the remote lookup of a
    gene's canonical transcript. *)
Variable py_float : string -> result Q.
Variable py_round2 : Q -> Q.
Variable get_canonical : string -> result string.

(** ** Population frequency *)

Fixpoint popfreq_nums (xs : list (option Q)) (popfreq : list Q) : list Q :=
  match xs with
  | [] => popfreq
  | None :: xs' => popfreq_nums xs' (popfreq ++ [0%Q])
  | Some x :: xs' => popfreq_nums xs' (popfreq ++ [x])
  end.

Fixpoint popfreq_strs (xs : list string) (popfreq : list Q) : result (list Q) :=
  match xs with
  | [] => Ok popfreq
  | x :: xs' => v <- py_float x ;; popfreq_strs xs' (popfreq ++ [v])
  end.

Fixpoint popfreq_fields (fields : list string) (info : list (string * info_value))
    (popfreq : list Q) : result (list Q) :=
  match fields with
  | [] => Ok popfreq
  | field :: fields' =>
      match lookup field info with
      | None => popfreq_fields fields' info popfreq
      | Some (InfoNums xs) => popfreq_fields fields' info (popfreq_nums xs popfreq)
      | Some (InfoStrs xs) =>
          popfreq' <- popfreq_strs xs popfreq ;;
          popfreq_fields fields' info popfreq'
      end
  end.

Definition find_popfreq (vcf_rec : vcf_record) : result (list Q) :=
  popfreq_fields FREQ_FIELDS (INFO vcf_rec) [0%Q].

(** [max(find_popfreq(vcf_record)) <= float(options.popfreq)] *)
Definition popfreq_gate (o : options) (vcf_rec : vcf_record) : result bool :=
  pf <- find_popfreq vcf_rec ;;
  m <- py_max pf ;;
  Ok (Qle_bool m (popfreq o)).

(** A value as Python 2 compares it with a float: a null is below every
    number, a text is above. *)
Inductive py_value : Type :=
| PyNone
| PyNum (q : Q)
| PyStr (s : string).

(** [a < b] between entries that are numbers or nulls. *)
Definition lt_nullable (a b : option Q) : bool :=
  match a, b with
  | None, Some _ => true
  | Some x, Some y => Qltb x y
  | _, None => false
  end.

Fixpoint max_nullable (m : option Q) (l : list (option Q)) : option Q :=
  match l with
  | [] => m
  | x :: l' => max_nullable (if lt_nullable m x then x else m) l'
  end.

Fixpoint max_text (m : string) (l : list string) : string :=
  match l with
  | [] => m
  | x :: l' => max_text (if String.ltb m x then x else m) l'
  end.

(** [max(vcf_record.INFO["MLEAF"])]: the first greatest entry;
    [ValueError] on an empty list. *)
Definition max_number (v : info_value) : result py_value :=
  match v with
  | InfoNums [] => Raise ValueError
  | InfoNums (x :: l) =>
      Ok (match max_nullable x l with
          | Some q => PyNum q
          | None => PyNone
          end)
  | InfoStrs [] => Raise ValueError
  | InfoStrs (x :: l) => Ok (PyStr (max_text x l))
  end.

(** [v <= x] for a float [x]. *)
Definition le_float (v : py_value) (x : Q) : bool :=
  match v with
  | PyNone => true
  | PyNum q => Qle_bool q x
  | PyStr _ => false
  end.

(** [max(vcf_record.INFO["MLEAF"]) <= float(options.cohfreq)] *)
Definition cohfreq_gate (o : options) (vcf_rec : vcf_record) : result bool :=
  mleaf <- getitem (INFO vcf_rec) "MLEAF" ;;
  m <- max_number mleaf ;;
  Ok (le_float m (cohfreq o)).

(** ** Effect resolver *)

(** The inner loop of [find_effects] over the [&]-separated terms. *)
Fixpoint scan_effects (effects : list string) (maxeffect : string) : result string :=
  match effects with
  | [] => Ok maxeffect
  | effect :: effects' =>
      match lookup effect vocabulary with
      | None => scan_effects effects' maxeffect
      | Some v =>
          vmax <- severity maxeffect ;;
          if Qltb vmax v then scan_effects effects' effect
          else scan_effects effects' maxeffect
      end
  end.

(** The dict [CANONICAL_TRANSCRIPTS]. *)
Definition transcripts : Type := list (string * string).

(** The canonical-only block of [find_effects]: [false] stands for
    [continue]. *)
Definition canonical_only (o : options) (items : list string) (cache : transcripts)
    : result (bool * transcripts) :=
  if canonical o then
    gene <- item items 4 ;;
    if (String.length gene <=? 1)%nat then Ok (false, cache)
    else
      cache' <- match lookup gene cache with
                | Some _ => Ok cache
                | None => tr <- get_canonical gene ;; Ok (cache ++ [(gene, tr)])
                end ;;
      it6 <- item items 6 ;;
      tr <- getitem cache' gene ;;
      if negb (String.eqb it6 tr) then Ok (false, cache') else Ok (true, cache')
  else Ok (true, cache).

Fixpoint scan_annotations (o : options) (preds : list string) (sample_gt : string)
    (maxeffect : string) (cache : transcripts) : result (string * transcripts) :=
  match preds with
  | [] => Ok (maxeffect, cache)
  | pred :: preds' =>
      let items := split "|" pred in
      it0 <- item items 0 ;;
      if negb (String.eqb it0 sample_gt) then
        scan_annotations o preds' sample_gt maxeffect cache
      else
        ' (keep, cache') <- canonical_only o items cache ;;
        if keep then
          it1 <- item items 1 ;;
          maxeffect' <- scan_effects (split "&" it1) maxeffect ;;
          scan_annotations o preds' sample_gt maxeffect' cache'
        else scan_annotations o preds' sample_gt maxeffect cache'
  end.

(** [str(x)] of an ALT entry. *)
Definition str_of_alt (a : option string) : string :=
  match a with
  | Some s => s
  | None => "None"
  end.

Definition find_effects (o : options) (vcf_rec : vcf_record) (sample_gt : option string)
    (cache : transcripts) : result (string * transcripts) :=
  match lookup "ANN" (INFO vcf_rec) with
  | None => Ok ("None", cache)
  | Some (InfoStrs preds) =>
      scan_annotations o preds (str_of_alt sample_gt) "None" cache
  | Some (InfoNums []) => Ok ("None", cache)
  | Some (InfoNums (_ :: _)) => Raise AttributeError
  end.

(** ** Record filter and the per-sample step of [main] *)

(** The nested checks that set [PASS] (with the [append] of the "clean"
    marker to the sample's containers between the depth and the VAF check). *)
Definition qc_filter (o : options) (vcf_rec : vcf_record) (sgenot : call)
    (effects : list string) (records : list (option vcf_record))
    : result (bool * list string * list (option vcf_record)) :=
  if check_ad o sgenot then
    depth_ok <- check_depth o sgenot ;;
    if depth_ok then
      _ <- logged_vaf o sgenot ;;
      let effects := effects ++ ["clean"] in
      let records := records ++ [None] in
      vaf_ok <- check_vaf o sgenot ;;
      if vaf_ok then
        pop_ok <- popfreq_gate o vcf_rec ;;
        if pop_ok then
          coh_ok <- cohfreq_gate o vcf_rec ;;
          if coh_ok then Ok (true, effects, records)
          else Ok (false, effects, records)
        else Ok (false, effects, records)
      else Ok (false, effects, records)
    else Ok (false, effects, records)
  else Ok (false, effects, records).

(** [vcf_record.genotype(samplename)] *)
Definition genotype (vcf_rec : vcf_record) (samplename : string) : result call :=
  getitem (samples vcf_rec) samplename.

(** [gt.replace("|","").split("/")] *)
Definition split_gt (gt : gvalue) : result (list string) :=
  match gt with
  | GStr s => Ok (split "/" (remove_char "|" s))
  | _ => Raise AttributeError
  end.

(** [vcf_record.ALT[int(sample_call[-1])-1]] for the sample's genotype. *)
Definition called_allele (vcf_rec : vcf_record) (sgenot : call) : result (option string) :=
  gt <- call_getitem sgenot "GT" ;;
  sample_call <- split_gt gt ;;
  last <- last_item sample_call ;;
  idx <- py_int last ;;
  py_index (ALT vcf_rec) (idx - 1).

(** The body of the loop over samples for one record. *)
Definition scan_sample (o : options) (vcf_rec : vcf_record) (samplename : string)
    (effects : list string) (records : list (option vcf_record)) (cache : transcripts)
    : result (list string * list (option vcf_record) * transcripts) :=
  match genotype vcf_rec samplename with
  | Raise AttributeError => Ok (effects, records, cache)
  | Raise e => Raise e
  | Ok sgenot =>
      _ <- call_getitem sgenot "GT" ;;
      ' (PASS, effects, records) <- qc_filter o vcf_rec sgenot effects records ;;
      if (PASS : bool) then
        sample_gt <- called_allele vcf_rec sgenot ;;
        ' (eff, cache') <- find_effects o vcf_rec sample_gt cache ;;
        Ok (effects ++ [eff], records ++ [Some vcf_rec], cache')
      else Ok (effects, records, cache)
  end.

(** The dicts [effects] and [records], keyed by sample name. *)
Definition containers : Type :=
  list (string * (list string * list (option vcf_record))).

Fixpoint scan_samples (o : options) (vcf_rec : vcf_record) (conts : containers)
    (cache : transcripts) : result (containers * transcripts) :=
  match conts with
  | [] => Ok ([], cache)
  | (samplename, (effects, records)) :: conts' =>
      ' (effects', records', cache') <-
        scan_sample o vcf_rec samplename effects records cache ;;
      ' (conts'', cache'') <- scan_samples o vcf_rec conts' cache' ;;
      Ok ((samplename, (effects', records')) :: conts'', cache'')
  end.

(** [sum([symbol in a for a in INFO["ANN"]]) > 0] *)
Definition gencheck (symbol : string) (ann : info_value) : result bool :=
  match ann with
  | InfoStrs anns => Ok (existsb (str_contains symbol) anns)
  | InfoNums [] => Ok false
  | InfoNums (_ :: _) => Raise TypeError
  end.

(** The loop over the records fetched for one gene. *)
Fixpoint scan_records (o : options) (symbol : string) (vcf_records : list vcf_record)
    (nr_of_positions : Z) (conts : containers) (cache : transcripts)
    : result (Z * containers * transcripts) :=
  match vcf_records with
  | [] => Ok (nr_of_positions, conts, cache)
  | vcf_rec :: vcf_records' =>
      match lookup "ANN" (INFO vcf_rec) with
      | None => scan_records o symbol vcf_records' nr_of_positions conts cache
      | Some ann =>
          found <- gencheck symbol ann ;;
          if (found : bool) then
            ' (conts', cache') <- scan_samples o vcf_rec conts cache ;;
            scan_records o symbol vcf_records' (nr_of_positions + 1) conts' cache'
          else scan_records o symbol vcf_records' nr_of_positions conts cache
      end
  end.

(** "Prep containers": an empty pair of lists per sample. *)
Definition prep_containers (samplenames : list string) : containers :=
  map (fun s => (s, ([], []))) samplenames.

(** ** Gene aggregator *)

(** What one (sample, gene) pair contributes to [df], [cdf] and [rdf];
    [rdf_entry] is [None] when no key is added to [rdf[samplename]]. *)
Record gene_call : Type := {
  df_entry : string;
  cdf_entry : Z;
  rdf_entry : option (option vcf_record * string)
}.

Definition count_selected (o : options) (effects : list string) : Z :=
  Z.of_nat (length (filter (fun eff => str_in eff (toselect o)) effects)).

(** [effects.count("clean")] *)
Definition count_clean (effects : list string) : Z :=
  Z.of_nat (length (filter (String.eqb "clean") effects)).

Definition aggregate (o : options) (nr_of_positions : Z) (effects : list string)
    (records : list (option vcf_record)) : result gene_call :=
  if (length effects <=? 0)%nat then
    Ok {| df_entry := "None"; cdf_entry := 0; rdf_entry := None |}
  else
    let count := count_selected o effects in
    loc <- select_maximum_effect effects ;;
    eff <- item effects loc ;;
    if str_in eff (toselect o) then
      match lookup eff mapping with
      | Some _ =>
          thisrec <- item records loc ;;
          Ok {| df_entry := eff; cdf_entry := count; rdf_entry := Some (thisrec, eff) |}
      | None =>
          Ok {| df_entry := eff; cdf_entry := count; rdf_entry := None |}
      end
    else if nr_of_positions / 2 <=? count_clean effects then
      Ok {| df_entry := "clean"; cdf_entry := count; rdf_entry := None |}
    else
      Ok {| df_entry := "None"; cdf_entry := count; rdf_entry := None |}.

Fixpoint aggregate_samples (o : options) (nr_of_positions : Z) (conts : containers)
    : result (list (string * gene_call)) :=
  match conts with
  | [] => Ok []
  | (samplename, (effects, records)) :: conts' =>
      c <- aggregate o nr_of_positions effects records ;;
      cs <- aggregate_samples o nr_of_positions conts' ;;
      Ok ((samplename, c) :: cs)
  end.

(** One iteration of the loop over genes, for the records the region
    query returned. *)
Definition gene_overview (o : options) (symbol : string) (vcf_records : list vcf_record)
    (samplenames : list string) (cache : transcripts)
    : result (list (string * gene_call) * transcripts) :=
  ' (nr_of_positions, conts, cache') <-
    scan_records o symbol vcf_records 0 (prep_containers samplenames) cache ;;
  calls <- aggregate_samples o nr_of_positions conts ;;
  Ok (calls, cache').

(** ** Detail rows of the mutation chart *)

(** One line of MutationChart.txt, before [str] and the tab-join. *)
Record chart_row : Type := {
  Hugo_Symbol : string;
  Sample_ID : string;
  Protein_Change : string;
  Mutation_Type : string;
  Chromosome : string;
  Start_Position : Z;
  End_Position : Z;
  Reference_Allele : string;
  Variant_Allele : string;
  VAF : Q
}.

(** The loop that looks for the first transcript with the retained
    effect; [None] when the loop ends without [break]. *)
Fixpoint find_proteffect (eff : string) (preds : list string) : result (option string) :=
  match preds with
  | [] => Ok None
  | pred :: preds' =>
      it1 <- item (split "|" pred) 1 ;;
      if str_in eff (split "&" it1) then
        it10 <- item (split "|" pred) 10 ;;
        Ok (Some it10)
      else find_proteffect eff preds'
  end.

(** The body of the loop over [rdf[samplename]]: the row written for one
    retained record. *)
Definition chart_row_of (o : options) (samplename gene : string)
    (thisrec : option vcf_record) (eff : string) : result chart_row :=
  match thisrec with
  | None => Raise AttributeError
  | Some r =>
      sgenot <- genotype r samplename ;;
      q <- logged_vaf o sgenot ;;
      let vaf := py_round2 q in
      sample_gt <- called_allele r sgenot ;;
      ann <- getitem (INFO r) "ANN" ;;
      proteffect <- match ann with
                    | InfoStrs preds => find_proteffect eff preds
                    | InfoNums [] => Ok None
                    | InfoNums (_ :: _) => Raise AttributeError
                    end ;;
      mutation_type <- getitem mapping eff ;;
      len <- match sample_gt with
             | Some s => Ok (Z.of_nat (String.length s))
             | None => Raise TypeError
             end ;;
      match proteffect with
      | None => Raise TypeError
      | Some p =>
          Ok {| Hugo_Symbol := gene;
                Sample_ID := samplename;
                Protein_Change := p;
                Mutation_Type := mutation_type;
                Chromosome := CHROM r;
                Start_Position := POS r;
                End_Position := POS r + len;
                Reference_Allele := REF r;
                Variant_Allele := str_of_alt sample_gt;
                VAF := vaf |}
      end
  end.

(** The rows one (sample, gene) call adds to the chart: [rdf] has a key
    for the pair only when [rdf_entry] is set. *)
Definition chart_rows_of_call (o : options) (samplename gene : string) (c : gene_call)
    : result (list chart_row) :=
  match rdf_entry c with
  | None => Ok []
  | Some (thisrec, eff) =>
      row <- chart_row_of o samplename gene thisrec eff ;;
      Ok [row]
  end.

(** ** The tables [df], [cdf] and [rdf] *)

(** [d[k] = v] on a dict.  The list holds each key once; the place of a
    key in it stands for nothing, a dict being iterated in an arbitrary
    order: the statements about the tables speak of lookups, of the keys
    present and of their number. *)
Fixpoint dict_set {V : Type} (k : string) (v : V) (d : list (string * V))
    : list (string * V) :=
  match d with
  | [] => [(k, v)]
  | (k', v') :: d' =>
      if String.eqb k k' then (k', v) :: d' else (k', v') :: dict_set k v d'
  end.

(** The rows of one sample in the three tables, which get their sample
    keys together in the sample loop. *)
Record sample_rows : Type := {
  df_row : list (string * string);
  cdf_row : list (string * Z);
  rdf_row : list (string * (option vcf_record * string))
}.

Definition tables : Type := list (string * sample_rows).

(** [df[samplename] = {}], [rdf[samplename] = {}], [cdf[samplename] = {}] *)
Definition fresh_rows : sample_rows :=
  {| df_row := []; cdf_row := []; rdf_row := [] |}.

(** [df[samplename][symbol] = "None"] *)
Definition mark_None (symbol : string) (rows : sample_rows) : sample_rows :=
  {| df_row := dict_set symbol "None" (df_row rows);
     cdf_row := cdf_row rows;
     rdf_row := rdf_row rows |}.

(** The assignments for one sample at the end of a gene. *)
Definition assign_call (symbol : string) (c : gene_call) (rows : sample_rows)
    : sample_rows :=
  {| df_row := dict_set symbol (df_entry c) (df_row rows);
     cdf_row := dict_set symbol (cdf_entry c) (cdf_row rows);
     rdf_row := match rdf_entry c with
                | Some kept => dict_set symbol kept (rdf_row rows)
                | None => rdf_row rows
                end |}.

Fixpoint assign_calls (symbol : string) (calls : list (string * gene_call))
    (tabs : tables) : tables :=
  match calls, tabs with
  | (_, c) :: calls', (samplename, rows) :: tabs' =>
      (samplename, assign_call symbol c rows) :: assign_calls symbol calls' tabs'
  | _, _ => tabs
  end.


(** ** The loops over the gene-list file and over the genes *)

(** The remote lookup [get_geneinfo(genesymbol, 'symbol')] and the region
    query [vcfread.fetch(chr, start, end)] of the file at hand. *)
Variable get_geneinfo : string -> result genedef.
Variable fetch : string -> Z -> Z -> result (list vcf_record).

(** The loop over the lines of the gene-list file. *)
Fixpoint read_genelist (lines : list string) (genelist : list genedef)
    (genecollection : list string) : result (list genedef * list string) :=
  match lines with
  | [] => Ok (genelist, genecollection)
  | line :: lines' =>
      genesymbol <- genesymbol_of line ;;
      if negb (str_in genesymbol genecollection) then
        g <- get_geneinfo genesymbol ;;
        read_genelist lines' (genelist ++ [g]) (genecollection ++ [genesymbol])
      else read_genelist lines' genelist genecollection
  end.

(** One iteration of the loop over the genes ([len(thisgene)] is 5 for the
    dict [get_geneinfo] builds).  A [ValueError] of the region query marks
    the gene "None" for every sample and goes on to the next gene. *)
Definition gene_step (o : options) (thisgene : genedef) (tabs : tables)
    (cache : transcripts) : result (tables * transcripts) :=
  match fetch (Chr thisgene) (Start thisgene - 20) (Stop thisgene + 20) with
  | Raise ValueError =>
      Ok (map (fun sr => (fst sr, mark_None (SYMBOL thisgene) (snd sr))) tabs, cache)
  | Raise e => Raise e
  | Ok vcf_records =>
      ' (calls, cache') <-
        gene_overview o (SYMBOL thisgene) vcf_records (map fst tabs) cache ;;
      Ok (assign_calls (SYMBOL thisgene) calls tabs, cache')
  end.

Fixpoint process_genes (o : options) (genelist : list genedef) (tabs : tables)
    (cache : transcripts) : result (tables * transcripts) :=
  match genelist with
  | [] => Ok (tabs, cache)
  | thisgene :: genelist' =>
      ' (tabs', cache') <- gene_step o thisgene tabs cache ;;
      process_genes o genelist' tabs' cache'
  end.


(** ** The scan under a key that is no sample name

    The loop over the samples of the reader leaves [samplename = False]
    when the format is neither "GATK" nor "FREEB", and [False] becomes a
    key of [df], [rdf] and [cdf].  A key of these dicts is a sample name,
    [Some], or [False], [None]. *)

(** The index of a key in the record's table of sample names: [False] is
    no key of that table. *)
Definition lookup_key {V : Type} (key : option string) (d : list (string * V))
    : option V :=
  match key with
  | Some k => lookup k d
  | None => None
  end.

(** [vcf_record.genotype(samplename)] *)
Definition genotype_key (vcf_rec : vcf_record) (key : option string) : result call :=
  match lookup_key key (samples vcf_rec) with
  | Some sgenot => Ok sgenot
  | None => Raise KeyError
  end.

(** The body of the loop over the keys of [df] for one record. *)
Definition scan_key (o : options) (vcf_rec : vcf_record) (key : option string)
    (effects : list string) (records : list (option vcf_record)) (cache : transcripts)
    : result (list string * list (option vcf_record) * transcripts) :=
  match genotype_key vcf_rec key with
  | Raise AttributeError => Ok (effects, records, cache)
  | Raise e => Raise e
  | Ok sgenot =>
      _ <- call_getitem sgenot "GT" ;;
      ' (PASS, effects, records) <- qc_filter o vcf_rec sgenot effects records ;;
      if (PASS : bool) then
        sample_gt <- called_allele vcf_rec sgenot ;;
        ' (eff, cache') <- find_effects o vcf_rec sample_gt cache ;;
        Ok (effects ++ [eff], records ++ [Some vcf_rec], cache')
      else Ok (effects, records, cache)
  end.

Definition key_containers : Type :=
  list (option string * (list string * list (option vcf_record))).

Fixpoint scan_keys (o : options) (vcf_rec : vcf_record) (conts : key_containers)
    (cache : transcripts) : result (key_containers * transcripts) :=
  match conts with
  | [] => Ok ([], cache)
  | (key, (effects, records)) :: conts' =>
      ' (effects', records', cache') <-
        scan_key o vcf_rec key effects records cache ;;
      ' (conts'', cache'') <- scan_keys o vcf_rec conts' cache' ;;
      Ok ((key, (effects', records')) :: conts'', cache'')
  end.

Fixpoint scan_records_keys (o : options) (symbol : string)
    (vcf_records : list vcf_record) (nr_of_positions : Z) (conts : key_containers)
    (cache : transcripts) : result (Z * key_containers * transcripts) :=
  match vcf_records with
  | [] => Ok (nr_of_positions, conts, cache)
  | vcf_rec :: vcf_records' =>
      match lookup "ANN" (INFO vcf_rec) with
      | None => scan_records_keys o symbol vcf_records' nr_of_positions conts cache
      | Some ann =>
          found <- gencheck symbol ann ;;
          if (found : bool) then
            ' (conts', cache') <- scan_keys o vcf_rec conts cache ;;
            scan_records_keys o symbol vcf_records' (nr_of_positions + 1)
                              conts' cache'
          else scan_records_keys o symbol vcf_records' nr_of_positions conts cache
      end
  end.

(** ** Notions used in the statements *)

(** A term of the vocabulary. *)
Definition is_known (eff : string) : bool :=
  match lookup eff vocabulary with
  | Some _ => true
  | None => false
  end.

Definition known (eff : string) : Prop := is_known eff = true.

(** The canonical transcript the resolver uses for a gene: the cached one,
    else the one the remote lookup gives. *)
Definition canonical_of (cache : transcripts) (gene : string) : result string :=
  match lookup gene cache with
  | Some tr => Ok tr
  | None => get_canonical gene
  end.

(** An annotation the resolver does not skip: its leading field is the
    called allele and, in canonical-only mode, its transcript field is the
    canonical transcript of its gene field. *)
Definition usable (o : options) (cache : transcripts) (sample_gt pred : string) : Prop :=
  nth_error (split "|" pred) 0 = Some sample_gt /\
  (canonical o = true ->
   exists gene tr,
     nth_error (split "|" pred) 4 = Some gene /\ (1 < String.length gene)%nat /\
     nth_error (split "|" pred) 6 = Some tr /\ canonical_of cache gene = Ok tr).

(** The term [t] is one of the [&]-separated terms of the annotation. *)
Definition carries (pred t : string) : Prop :=
  exists it1, nth_error (split "|" pred) 1 = Some it1 /\ In t (split "&" it1).

(** An annotation with the fields the resolver reads: nothing is asked of
    an annotation for another allele; one for the called allele has an
    effect field and, in canonical-only mode, a gene field that is either
    at most one character long or comes with a transcript field and a
    canonical transcript that can be resolved. *)
Definition well_formed (o : options) (cache : transcripts) (sample_gt pred : string)
    : Prop :=
  nth_error (split "|" pred) 0 = Some sample_gt ->
  (exists it1, nth_error (split "|" pred) 1 = Some it1) /\
  (canonical o = true ->
   exists gene,
     nth_error (split "|" pred) 4 = Some gene /\
     ((String.length gene <= 1)%nat \/
      exists it6 tr,
        nth_error (split "|" pred) 6 = Some it6 /\ canonical_of cache gene = Ok tr)).

(** The number a list entry of a frequency field stands for. *)
Definition null_as_zero (x : option Q) : Q :=
  match x with
  | Some q => q
  | None => 0%Q
  end.

(** A value the entries of the fields [fields] of [info] add to the list of
    frequencies: a number itself, a null as 0.0, a text as [float] reads
    it. *)
Definition frequency_of (fields : list string) (info : list (string * info_value))
    (v : Q) : Prop :=
  exists field,
    In field fields /\
    match lookup field info with
    | Some (InfoNums xs) => exists y, In y xs /\ v = null_as_zero y
    | Some (InfoStrs xs) => exists x, In x xs /\ py_float x = Ok v
    | None => False
    end.

(** The options with another depth threshold. *)
Definition with_mindepth (o : options) (d : Z) : options :=
  {| canonical := canonical o; mindepth := d; minvaf := minvaf o;
     popfreq := popfreq o; cohfreq := cohfreq o; mineff := mineff o;
     format := format o |}.

(** A container holds known terms only, one record slot per term. *)
Definition aligned (c : string * (list string * list (option vcf_record))) : Prop :=
  Forall known (fst (snd c)) /\ length (snd (snd c)) = length (fst (snd c)).

(** The record counts as a position of the gene. *)
Definition annotated (symbol : string) (vcf_rec : vcf_record) : bool :=
  match lookup "ANN" (INFO vcf_rec) with
  | Some (InfoStrs anns) => existsb (str_contains symbol) anns
  | _ => false
  end.

(** An allele-support entry that is a count. *)
Definition is_count (x : option Z) : Prop :=
  match x with
  | Some n => 0 <= n
  | None => False
  end.

(** [o'] asks no more of a record than [o]: the same layout, and each
    threshold of the filter as loose or looser. *)
Definition relaxed (o o' : options) : Prop :=
  format o' = format o /\
  mindepth o' <= mindepth o /\
  (minvaf o' <= minvaf o)%Q /\
  (popfreq o <= popfreq o')%Q /\
  (cohfreq o <= cohfreq o')%Q.

(** What a slot of a sample's two containers holds after the scan of a
    gene: the marker "clean" beside a null, or beside a fetched record with
    an annotation for the gene the effect the resolver returned for the
    sample's called allele on that record (for which the logged VAF
    expression could be computed). *)
Definition slot_of (o : options) (symbol samplename : string)
    (vcf_records : list vcf_record) (e : string) (r : option vcf_record) : Prop :=
  match r with
  | None => e = "clean"
  | Some vcf_rec =>
      In vcf_rec vcf_records /\ annotated symbol vcf_rec = true /\
      exists sgenot sample_gt c1 c2 q,
        genotype vcf_rec samplename = Ok sgenot /\
        logged_vaf o sgenot = Ok q /\
        called_allele vcf_rec sgenot = Ok sample_gt /\
        find_effects o vcf_rec sample_gt c1 = Ok (e, c2)
  end.

Definition paired (o : options) (symbol : string) (vcf_records : list vcf_record)
    (c : string * (list string * list (option vcf_record))) : Prop :=
  Forall2 (slot_of o symbol (fst c) vcf_records) (fst (snd c)) (snd (snd c)).

(** The strings of a list differ from one another. *)
Fixpoint distinct (l : list string) : bool :=
  match l with
  | [] => true
  | x :: l' => negb (str_in x l') && distinct l'
  end.

(** The text of a diploid genotype of two one-digit allele indices. *)
Definition digit_char (d : nat) : ascii := ascii_of_nat (48 + d).

Definition gt_text (a : nat) (sep : ascii) (b : nat) : string :=
  String (digit_char a) (String sep (String (digit_char b) EmptyString)).

(** Every transcript cached in [c] is cached, unchanged, in [c']. *)
Definition extends (c c' : list (string * string)) : Prop :=
  forall g tr, lookup g c = Some tr -> lookup g c' = Some tr.

(** The strings of [l] not in [seen], each at its first occurrence. *)
Fixpoint first_seen (seen l : list string) : list string :=
  match l with
  | [] => []
  | x :: l' =>
      if str_in x seen then first_seen seen l'
      else x :: first_seen (seen ++ [x]) l'
  end.

(** The region query for the gene does not raise [ValueError]. *)
Definition fetched (thisgene : genedef) : bool :=
  match fetch (Chr thisgene) (Start thisgene - 20) (Stop thisgene + 20) with
  | Raise ValueError => false
  | _ => true
  end.

(** An entry of the answer that is not flagged canonical. *)
Definition not_canonical (t : transcript_entry) : Prop := entry_is_canonical t <> 1.

(** The keys of a dict after [d[k] = v]. *)
Definition keys_with (ks : list string) (k : string) : list string :=
  if str_in k ks then ks else ks ++ [k].

(** Every sample has the gene columns [dk] in [df] and [ck] in [cdf]. *)
Definition columns (dk ck : list string) (tabs : tables) : Prop :=
  forall samplename rows,
    In (samplename, rows) tabs ->
    map fst (df_row rows) = dk /\ map fst (cdf_row rows) = ck.

(** The null slots (markers) and the record slots of a container. *)
Definition markers (records : list (option vcf_record)) : nat :=
  length (filter (fun r => match r with None => true | Some _ => false end) records).

Definition resolved (records : list (option vcf_record)) : nat :=
  length (filter (fun r => match r with None => false | Some _ => true end) records).

(** A sample has at most [n] markers, and no more records than markers. *)
Definition bounded (n : Z) (c : string * (list string * list (option vcf_record)))
    : Prop :=
  Z.of_nat (markers (snd (snd c))) <= n /\
  (resolved (snd (snd c)) <= markers (snd (snd c)))%nat /\
  length (fst (snd c)) = length (snd (snd c)).

(** * Properties *)

(** ** Basic facts *)

Lemma bind_Ok_inv {A B : Type} (c : result A) (k : A -> result B) (b : B) :
  bind c k = Ok b -> exists a, c = Ok a /\ k a = Ok b.
Proof.
  destruct c as [a|e]; simpl; intros H; [exists a; auto | discriminate].
Qed.

Lemma Qltb_lt (x y : Q) : Qltb x y = true <-> (x < y)%Q.
Proof.
  unfold Qltb. rewrite negb_true_iff. split; intros H.
  - apply Qnot_le_lt. intros Hle. apply Qle_bool_iff in Hle. congruence.
  - destruct (Qle_bool y x) eqn:E; auto.
    apply Qle_bool_iff in E. exfalso. apply (Qlt_not_le _ _ H E).
Qed.

Lemma Qltb_ge (x y : Q) : Qltb x y = false <-> (y <= x)%Q.
Proof.
  unfold Qltb. rewrite negb_false_iff. apply Qle_bool_iff.
Qed.

Lemma lookup_cons {V : Type} (k k' : string) (v : V) (d : list (string * V)) :
  lookup k ((k', v) :: d) = if String.eqb k k' then Some v else lookup k d.
Proof. reflexivity. Qed.

(** ** Known terms *)

Lemma known_severity (eff : string) :
  known eff -> exists v, lookup eff vocabulary = Some v /\ severity eff = Ok v.
Proof.
  unfold known, is_known, severity, getitem.
  destruct (lookup eff vocabulary) as [v|]; [exists v; auto | discriminate].
Qed.

Lemma severity_lookup (eff : string) (v : Q) :
  severity eff = Ok v <-> lookup eff vocabulary = Some v.
Proof.
  unfold severity, getitem.
  destruct (lookup eff vocabulary); split; intros H; inversion H; auto.
Qed.

Lemma severity_known (eff : string) (v : Q) : severity eff = Ok v -> known eff.
Proof.
  intros H. apply severity_lookup in H. unfold known, is_known. now rewrite H.
Qed.

Lemma lookup_In {V : Type} (k : string) (d : list (string * V)) (v : V) :
  lookup k d = Some v -> In (k, v) d.
Proof.
  induction d as [|[k' v'] d IH]; [discriminate|].
  rewrite lookup_cons. destruct (String.eqb_spec k k') as [->|_].
  - intros H. inversion H. now left.
  - intros H. right. auto.
Qed.

Lemma str_in_In (x : string) (l : list string) : str_in x l = true <-> In x l.
Proof.
  unfold str_in. rewrite existsb_exists. split.
  - intros [y [Hy E]]. apply String.eqb_eq in E. now subst.
  - intros H. exists x. split; [assumption | apply String.eqb_refl].
Qed.

Lemma toselect_spec (o : options) (eff : string) :
  In eff (toselect o) <->
  exists v, In (eff, v) vocabulary /\ (mineff o <= v)%Q.
Proof.
  unfold toselect. rewrite in_map_iff. split.
  - intros [[k v] [Hk Hin]]. simpl in Hk. subst k.
    apply filter_In in Hin. destruct Hin as [Hin Hle]. simpl in Hle.
    exists v. split; [assumption | now apply Qle_bool_iff].
  - intros [v [Hin Hle]]. exists (eff, v). split; [reflexivity|].
    apply filter_In. split; [assumption | now apply Qle_bool_iff].
Qed.

Lemma toselect_vocabulary (o : options) (eff : string) :
  str_in eff (toselect o) = true -> In eff (map fst vocabulary).
Proof.
  intros H. apply str_in_In in H. apply toselect_spec in H.
  destruct H as [v [Hin _]]. apply in_map_iff. now exists (eff, v).
Qed.

(** ** The index chosen by [numpy.argmax] *)

Lemma argmax_from_spec (l : list Q) :
  forall (p : list Q) (best : nat) (m : Q),
    nth_error p best = Some m ->
    (forall j v, nth_error p j = Some v -> (v <= m)%Q) ->
    (forall j v, (j < best)%nat -> nth_error p j = Some v -> (v < m)%Q) ->
    exists m',
      nth_error (p ++ l) (argmax_from best m (length p) l) = Some m' /\
      (forall j v, nth_error (p ++ l) j = Some v -> (v <= m')%Q) /\
      (forall j v, (j < argmax_from best m (length p) l)%nat ->
                   nth_error (p ++ l) j = Some v -> (v < m')%Q).
Proof.
  induction l as [|x l IH]; intros p best m Hbest Hle Hlt.
  - simpl. rewrite app_nil_r. exists m. auto.
  - simpl. replace (p ++ x :: l) with ((p ++ [x]) ++ l)
      by (rewrite <- app_assoc; reflexivity).
    replace (S (length p)) with (length (p ++ [x]))
      by (rewrite length_app; simpl; lia).
    assert (Hsplit : forall j v, nth_error (p ++ [x]) j = Some v ->
              ((j < length p)%nat /\ nth_error p j = Some v) \/
              (j = length p /\ v = x)).
    { intros j v Hj. destruct (Nat.lt_ge_cases j (length p)) as [Hj'|Hj'].
      - left. split; [assumption|]. now rewrite nth_error_app1 in Hj.
      - right. rewrite nth_error_app2 in Hj by assumption.
        destruct (j - length p)%nat as [|k] eqn:E; simpl in Hj.
        + split; [lia | congruence].
        + destruct k; discriminate. }
    destruct (Qltb m x) eqn:E.
    + apply Qltb_lt in E. apply IH.
      * rewrite nth_error_app2 by lia. now rewrite Nat.sub_diag.
      * intros j v Hj. destruct (Hsplit j v Hj) as [[_ Hp]|[_ ->]].
        -- apply Qlt_le_weak. eapply Qle_lt_trans; [apply (Hle j v Hp) | exact E].
        -- apply Qle_refl.
      * intros j v Hjl Hj. destruct (Hsplit j v Hj) as [[_ Hp]|[Hjeq _]].
        -- eapply Qle_lt_trans; [apply (Hle j v Hp) | exact E].
        -- lia.
    + apply Qltb_ge in E. apply IH.
      * rewrite nth_error_app1; [assumption|].
        apply nth_error_Some. congruence.
      * intros j v Hj. destruct (Hsplit j v Hj) as [[_ Hp]|[_ ->]].
        -- apply (Hle j v Hp).
        -- exact E.
      * intros j v Hjl Hj. destruct (Hsplit j v Hj) as [[_ Hp]|[Hjeq _]].
        -- apply (Hlt j v Hjl Hp).
        -- assert (best < length p)%nat by (apply nth_error_Some; congruence). lia.
Qed.

Lemma argmax_spec (x : Q) (l : list Q) :
  exists loc m,
    argmax (x :: l) = Ok loc /\ nth_error (x :: l) loc = Some m /\
    (forall j v, nth_error (x :: l) j = Some v -> (v <= m)%Q) /\
    (forall j v, (j < loc)%nat -> nth_error (x :: l) j = Some v -> (v < m)%Q).
Proof.
  destruct (argmax_from_spec l [x] 0%nat x) as [m [H1 [H2 H3]]].
  - reflexivity.
  - intros [|[|j]] v Hj; simpl in Hj; inversion Hj. apply Qle_refl.
  - intros j v Hj. lia.
  - exists (argmax_from 0 x 1 l), m. simpl in *. auto.
Qed.

Lemma effectvalues_nth (effects : list string) :
  forall vs, effectvalues effects = Ok vs ->
  forall j, nth_error vs j =
            match nth_error effects j with
            | Some e => lookup e vocabulary
            | None => None
            end.
Proof.
  induction effects as [|e effects IH]; simpl; intros vs H j.
  - inversion H. now destruct j.
  - apply bind_Ok_inv in H. destruct H as [v [Hv H]].
    apply bind_Ok_inv in H. destruct H as [vs' [Hvs H]].
    inversion H. subst vs. apply severity_lookup in Hv.
    destruct j as [|j]; simpl; [now rewrite Hv | now apply IH].
Qed.

Lemma effectvalues_known (effects : list string) :
  Forall known effects -> exists vs, effectvalues effects = Ok vs.
Proof.
  induction 1 as [|e effects He _ [vs IH]]; simpl.
  - now exists [].
  - destruct (known_severity e He) as [v [_ Hv]].
    rewrite Hv, IH. simpl. now exists (v :: vs).
Qed.

Lemma effectvalues_length (effects : list string) :
  forall vs, effectvalues effects = Ok vs -> length vs = length effects.
Proof.
  induction effects as [|e effects IH]; simpl; intros vs H.
  - now inversion H.
  - apply bind_Ok_inv in H. destruct H as [v [Hv H]].
    apply bind_Ok_inv in H. destruct H as [vs' [Hvs H]].
    inversion H. simpl. f_equal. now apply IH.
Qed.

(** The function returns an index for every non-empty sequence of known
    terms, and that index is the first one of greatest severity. *)
Lemma select_maximum_effect_spec (effects : list string) :
  effects <> [] -> Forall known effects ->
  exists loc eff v,
    select_maximum_effect effects = Ok loc /\
    nth_error effects loc = Some eff /\ severity eff = Ok v /\
    (forall j e w, nth_error effects j = Some e -> severity e = Ok w -> (w <= v)%Q) /\
    (forall j e w, (j < loc)%nat -> nth_error effects j = Some e ->
                   severity e = Ok w -> (w < v)%Q).
Proof.
  intros Hne Hk. destruct (effectvalues_known effects Hk) as [vs Hvs].
  pose proof (effectvalues_nth effects vs Hvs) as Hnth.
  pose proof (effectvalues_length effects vs Hvs) as Hlen.
  destruct vs as [|x vs]; [destruct effects; [congruence | discriminate]|].
  destruct (argmax_spec x vs) as [loc [m [Harg [Hm [Hle Hlt]]]]].
  pose proof (Hnth loc) as Hloc. rewrite Hm in Hloc.
  destruct (nth_error effects loc) as [eff|] eqn:Eeff; [|discriminate].
  exists loc, eff, m. unfold select_maximum_effect. rewrite Hvs. simpl bind.
  repeat split; auto.
  - apply severity_lookup. auto.
  - intros j e w Hj Hw. apply (Hle j). rewrite Hnth, Hj.
    now apply severity_lookup.
  - intros j e w Hjl Hj Hw. apply (Hlt j); [assumption|]. rewrite Hnth, Hj.
    now apply severity_lookup.
Qed.

(** ** The aggregator on its own *)

Ltac bind_inv H :=
  let a := fresh "a" in
  let E := fresh "E" in
  apply bind_Ok_inv in H; destruct H as [a [E H]].

Lemma aggregate_empty (o : options) (nr : Z) (records : list (option vcf_record)) :
  aggregate o nr [] records =
  Ok {| df_entry := "None"; cdf_entry := 0; rdf_entry := None |}.
Proof. reflexivity. Qed.

Lemma aggregate_df_entry (o : options) (nr : Z) (effects : list string)
    (records : list (option vcf_record)) (c : gene_call) :
  aggregate o nr effects records = Ok c ->
  df_entry c = "None" \/ df_entry c = "clean" \/ In (df_entry c) (map fst vocabulary).
Proof.
  unfold aggregate. destruct (length effects <=? 0)%nat.
  - intros H. inversion H. auto.
  - intros H. bind_inv H. bind_inv H. rename a0 into eff.
    destruct (str_in eff (toselect o)) eqn:Esel.
    + apply toselect_vocabulary in Esel.
      destruct (lookup eff mapping).
      * bind_inv H. inversion H. simpl. auto.
      * inversion H. simpl. auto.
    + destruct (_ <=? _); inversion H; simpl; auto.
Qed.

Lemma item_nth_error {A : Type} (l : list A) (i : nat) (a : A) :
  item l i = Ok a <-> nth_error l i = Some a.
Proof.
  unfold item. destruct (nth_error l i); split; intros H; inversion H; auto.
Qed.

Lemma aggregate_returns (o : options) (nr : Z) (effects : list string)
    (records : list (option vcf_record)) :
  Forall known effects -> length records = length effects ->
  exists c, aggregate o nr effects records = Ok c.
Proof.
  intros Hk Hlen. unfold aggregate.
  destruct effects as [|e effects]; [simpl; eauto|].
  change (length (e :: effects) <=? 0)%nat with false. cbv iota.
  destruct (select_maximum_effect_spec (e :: effects)) as
    [loc [eff [v [Hloc [Heff _]]]]]; [discriminate | assumption |].
  rewrite Hloc. cbn [bind].
  apply item_nth_error in Heff. rewrite Heff. cbn [bind].
  destruct (str_in eff (toselect o)).
  - destruct (lookup eff mapping); [|eauto].
    assert (Hr : exists r, item records loc = Ok r).
    { unfold item. destruct (nth_error records loc) eqn:E; [eauto|].
      apply nth_error_None in E. apply item_nth_error in Heff.
      assert (loc < length (e :: effects))%nat
        by (apply nth_error_Some; congruence). lia. }
    destruct Hr as [r ->]. cbn [bind]. eauto.
  - destruct (_ <=? _); eauto.
Qed.

Lemma count_selected_none (o : options) (effects : list string) :
  (forall e, In e effects -> str_in e (toselect o) = false) ->
  count_selected o effects = 0.
Proof.
  unfold count_selected. induction effects as [|e effects IH]; intros H.
  - reflexivity.
  - simpl. rewrite (H e) by now left. apply IH. intros e' He'. apply H. now right.
Qed.

Lemma aggregate_unreportable (o : options) (nr : Z) (effects : list string)
    (records : list (option vcf_record)) :
  effects <> [] -> Forall known effects ->
  (forall e, In e effects -> str_in e (toselect o) = false) ->
  aggregate o nr effects records =
  Ok {| df_entry := if nr / 2 <=? count_clean effects then "clean" else "None";
        cdf_entry := 0; rdf_entry := None |}.
Proof.
  intros Hne Hk Hsel. unfold aggregate.
  destruct effects as [|e effects]; [congruence|].
  change (length (e :: effects) <=? 0)%nat with false. cbv iota.
  destruct (select_maximum_effect_spec (e :: effects)) as
    [loc [eff [v [Hloc [Heff _]]]]]; [discriminate | assumption |].
  rewrite Hloc. cbn [bind].
  assert (Hin : In eff (e :: effects)) by (eapply nth_error_In; eauto).
  apply item_nth_error in Heff. rewrite Heff. cbn [bind].
  rewrite (Hsel eff Hin). rewrite count_selected_none by assumption.
  destruct (nr / 2 <=? count_clean (e :: effects)); reflexivity.
Qed.

(** ** The effect resolver *)

Lemma lookup_app {V : Type} (k : string) (d d' : list (string * V)) :
  lookup k (d ++ d') =
  match lookup k d with
  | Some v => Some v
  | None => lookup k d'
  end.
Proof.
  induction d as [|[k' v'] d IH]; [reflexivity|].
  rewrite <- app_comm_cons, !lookup_cons. now destruct (String.eqb k k').
Qed.

Lemma scan_effects_spec (effs : list string) :
  forall m vm r,
    severity m = Ok vm -> scan_effects effs m = Ok r ->
    exists vr,
      severity r = Ok vr /\ (vm <= vr)%Q /\
      (forall t vt, In t effs -> severity t = Ok vt -> (vt <= vr)%Q) /\
      (r = m \/ (In r effs /\ (vm < vr)%Q)).
Proof.
  induction effs as [|t effs IH]; intros m vm r Hm H.
  - simpl in H. inversion H. subst r. exists vm.
    repeat split; auto using Qle_refl. intros t vt [].
  - cbn [scan_effects] in H.
    destruct (lookup t vocabulary) as [v|] eqn:Et.
    + rewrite Hm in H. cbn [bind] in H.
      assert (Htv : severity t = Ok v) by now apply severity_lookup.
      destruct (Qltb vm v) eqn:E.
      * apply Qltb_lt in E.
        destruct (IH t v r Htv H) as [vr [Hr [Hle [Hall Hor]]]].
        exists vr. repeat split; auto.
        -- apply Qlt_le_weak. eapply Qlt_le_trans; eauto.
        -- intros t' vt [<-|Hin] Ht'; [|eauto].
           rewrite Htv in Ht'. inversion Ht'. subst vt. assumption.
        -- right. destruct Hor as [->|[Hin Hlt]].
           ++ rewrite Htv in Hr. inversion Hr. subst vr.
              split; [now left | assumption].
           ++ split; [now right |]. eapply Qlt_trans; eauto.
      * apply Qltb_ge in E.
        destruct (IH m vm r Hm H) as [vr [Hr [Hle [Hall Hor]]]].
        exists vr. repeat split; auto.
        -- intros t' vt [<-|Hin] Ht'; [|eauto].
           rewrite Htv in Ht'. inversion Ht'. subst vt.
           eapply Qle_trans; eauto.
        -- destruct Hor as [->|[Hin Hlt]]; [now left | right].
           split; [now right | assumption].
    + destruct (IH m vm r Hm H) as [vr [Hr [Hle [Hall Hor]]]].
      exists vr. repeat split; auto.
      * intros t' vt [<-|Hin] Ht'; [|eauto].
        apply severity_lookup in Ht'. congruence.
      * destruct Hor as [->|[Hin Hlt]]; [now left | right].
        split; [now right | assumption].
Qed.

Lemma scan_effects_returns (effs : list string) :
  forall m, known m -> exists r, scan_effects effs m = Ok r.
Proof.
  induction effs as [|t effs IH]; intros m Hm; cbn [scan_effects]; [eauto|].
  destruct (lookup t vocabulary) as [v|] eqn:Et; [|auto].
  destruct (known_severity m Hm) as [vm [_ ->]]. cbn [bind].
  destruct (Qltb vm v); apply IH; [|assumption].
  unfold known, is_known. now rewrite Et.
Qed.

Lemma canonical_only_spec (o : options) (items : list string)
    (cache cache' : transcripts) (keep : bool) :
  canonical_only o items cache = Ok (keep, cache') ->
  (forall g, canonical_of cache' g = canonical_of cache g) /\
  (keep = true <->
   (canonical o = true ->
    exists gene tr,
      nth_error items 4 = Some gene /\ (1 < String.length gene)%nat /\
      nth_error items 6 = Some tr /\ canonical_of cache gene = Ok tr)).
Proof.
  unfold canonical_only. destruct (canonical o).
  2:{ intros H. inversion H. split; [reflexivity|]. split; auto. discriminate. }
  intros H. bind_inv H. rename a into gene. apply item_nth_error in E.
  destruct (Nat.leb_spec (String.length gene) 1) as [Hlen|Hlen].
  { inversion H. subst. split; [reflexivity|]. split; [discriminate|].
    intros Hc. destruct (Hc eq_refl) as [g [tr [Hg [Hl _]]]].
    rewrite E in Hg. inversion Hg. subst g. lia. }
  bind_inv H. rename a into cache1. bind_inv H. rename a into it6.
  bind_inv H. rename a into tr. apply item_nth_error in E1.
  assert (Hcache : (forall g, canonical_of cache1 g = canonical_of cache g) /\
                   canonical_of cache gene = Ok tr).
  { unfold getitem in E2. unfold canonical_of.
    destruct (lookup gene cache) as [tr0|] eqn:Eg.
    - inversion E0. subst cache1. rewrite Eg in E2. inversion E2. auto.
    - bind_inv E0. rename a into tr1. inversion E0. subst cache1.
      rewrite lookup_app, Eg, lookup_cons, String.eqb_refl in E2.
      inversion E2. subst tr1. split; [|assumption].
      intros g. rewrite lookup_app. destruct (lookup g cache); [reflexivity|].
      rewrite lookup_cons.
      destruct (String.eqb_spec g gene) as [->|_]; [now rewrite E3 | reflexivity]. }
  destruct Hcache as [Hsame Htr].
  destruct (String.eqb_spec it6 tr) as [->|Hne]; cbn [negb] in H;
    inversion H; subst; (split; [assumption|]).
  - split; [|reflexivity]. intros _ _. exists gene, tr. auto.
  - split; [discriminate|]. intros Hc.
    destruct (Hc eq_refl) as [g [tr' [Hg [_ [H6 Hcan]]]]].
    rewrite E in Hg. inversion Hg. subst g. congruence.
Qed.

Lemma usable_cache (o : options) (cache cache' : transcripts) (gt pred : string) :
  (forall g, canonical_of cache' g = canonical_of cache g) ->
  usable o cache' gt pred <-> usable o cache gt pred.
Proof.
  intros Hsame. unfold usable.
  split; intros [H0 Hc]; (split; [assumption|]); intros Hcan;
    destruct (Hc Hcan) as [gene [tr [H4 [Hl [H6 Htr]]]]]; exists gene, tr;
    repeat split; auto; congruence.
Qed.

Lemma split_nonempty (sep : ascii) (s : string) :
  exists w ws, split sep s = w :: ws.
Proof.
  induction s as [|c s [w [ws IH]]]; simpl; [eauto|].
  destruct (Ascii.eqb c sep); [eauto|]. rewrite IH. eauto.
Qed.

Lemma scan_annotations_spec (o : options) (gt : string) (preds : list string) :
  forall m vm cache r cache',
    severity m = Ok vm ->
    scan_annotations o preds gt m cache = Ok (r, cache') ->
    exists vr,
      severity r = Ok vr /\ (vm <= vr)%Q /\
      (forall g, canonical_of cache' g = canonical_of cache g) /\
      (forall pred t vt, In pred preds -> usable o cache gt pred -> carries pred t ->
                         severity t = Ok vt -> (vt <= vr)%Q) /\
      (r = m \/
       exists pred, In pred preds /\ usable o cache gt pred /\ carries pred r /\
                    (vm < vr)%Q).
Proof.
  induction preds as [|pred preds IH]; intros m vm cache r cache' Hm H.
  - simpl in H. inversion H. subst. exists vm.
    repeat split; auto using Qle_refl. intros pred t vt [].
  - cbn [scan_annotations] in H. bind_inv H. rename a into it0.
    apply item_nth_error in E.
    destruct (String.eqb_spec it0 gt) as [->|Hne]; cbn [negb] in H.
    + bind_inv H. destruct a as [keep cache1].
      destruct (canonical_only_spec _ _ _ _ _ E0) as [Hsame Hkeep].
      destruct keep.
      * bind_inv H. rename a into it1. apply item_nth_error in E1.
        bind_inv H. rename a into m'.
        destruct (scan_effects_spec _ _ _ _ Hm E2) as [vm' [Hm' [Hle' [Hall' Hor']]]].
        destruct (IH _ _ _ _ _ Hm' H) as [vr [Hr [Hle [Hsame' [Hall Hor]]]]].
        assert (Hhead : usable o cache gt pred).
        { split; [assumption|]. now apply Hkeep. }
        exists vr. split; [assumption|]. split; [eapply Qle_trans; eauto|].
        split; [intros g; now rewrite Hsame', Hsame|]. split.
        -- intros p t vt [<-|Hin] Hu [it1' [H1 Ht]] Hv.
           ++ rewrite E1 in H1. inversion H1. subst it1'.
              eapply Qle_trans; [eapply Hall'; eauto | assumption].
           ++ apply (Hall p t vt Hin); [| now exists it1' | assumption].
              now apply (usable_cache o cache cache1 gt p Hsame).
        -- destruct Hor as [->|[p [Hin [Hu [Hc Hlt]]]]].
           ++ rewrite Hm' in Hr. inversion Hr. subst vr.
              destruct Hor' as [->|[Hin Hlt]]; [now left | right].
              exists pred. split; [now left|]. split; [assumption|].
              split; [now exists it1 | assumption].
           ++ right. exists p. split; [now right|].
              split; [now apply (usable_cache o cache cache1 gt p Hsame)|].
              split; [assumption|]. eapply Qle_lt_trans; eauto.
      * destruct (IH _ _ _ _ _ Hm H) as [vr [Hr [Hle [Hsame' [Hall Hor]]]]].
        exists vr. split; [assumption|]. split; [assumption|].
        split; [intros g; now rewrite Hsame', Hsame|]. split.
        -- intros p t vt [<-|Hin] Hu Hc Hv.
           ++ destruct Hu as [_ Hu]. apply Hkeep in Hu. discriminate.
           ++ apply (Hall p t vt Hin); [| assumption | assumption].
              now apply (usable_cache o cache cache1 gt p Hsame).
        -- destruct Hor as [->|[p [Hin [Hu [Hc Hlt]]]]]; [now left | right].
           exists p. split; [now right|].
           split; [now apply (usable_cache o cache cache1 gt p Hsame)|]. auto.
    + destruct (IH _ _ _ _ _ Hm H) as [vr [Hr [Hle [Hsame' [Hall Hor]]]]].
      exists vr. repeat split; auto.
      * intros p t vt [<-|Hin] Hu Hc Hv; [|eauto].
        destruct Hu as [Hu _]. congruence.
      * destruct Hor as [->|[p [Hin Hp]]]; [now left | right].
        exists p. split; [now right | assumption].
Qed.

Lemma scan_annotations_mismatch (o : options) (gt : string) (preds : list string) :
  forall m cache,
    (forall pred, In pred preds -> nth_error (split "|" pred) 0 <> Some gt) ->
    scan_annotations o preds gt m cache = Ok (m, cache).
Proof.
  induction preds as [|pred preds IH]; intros m cache Hall; [reflexivity|].
  cbn [scan_annotations].
  destruct (split_nonempty "|" pred) as [w [ws Hs]].
  assert (Hw : w <> gt).
  { intros ->. apply (Hall pred); [now left|]. now rewrite Hs. }
  rewrite Hs. cbn [item nth_error bind].
  apply String.eqb_neq in Hw. rewrite Hw. cbn [negb].
  apply IH. intros p Hp. apply Hall. now right.
Qed.

Lemma canonical_only_returns (o : options) (items : list string) (cache : transcripts) :
  (canonical o = true ->
   exists gene,
     nth_error items 4 = Some gene /\
     ((String.length gene <= 1)%nat \/
      exists it6 tr, nth_error items 6 = Some it6 /\ canonical_of cache gene = Ok tr)) ->
  exists keep cache', canonical_only o items cache = Ok (keep, cache').
Proof.
  unfold canonical_only. destruct (canonical o); [|eauto].
  intros H. destruct (H eq_refl) as [gene [H4 Hor]].
  apply item_nth_error in H4. rewrite H4. cbn [bind].
  destruct (Nat.leb_spec (String.length gene) 1) as [Hlen|Hlen]; [eauto|].
  destruct Hor as [Hle|[it6 [tr [H6 Htr]]]]; [lia|].
  apply item_nth_error in H6. unfold canonical_of in Htr. unfold getitem.
  destruct (lookup gene cache) as [tr0|] eqn:Eg.
  - cbn [bind]. rewrite H6. cbn [bind]. rewrite Eg. cbn [bind].
    destruct (negb (String.eqb it6 tr0)); eauto.
  - rewrite Htr. cbn [bind]. rewrite H6. cbn [bind].
    rewrite lookup_app, Eg, lookup_cons, String.eqb_refl. cbn [bind].
    destruct (negb (String.eqb it6 tr)); eauto.
Qed.

Lemma well_formed_cache (o : options) (cache cache' : transcripts) (gt pred : string) :
  (forall g, canonical_of cache' g = canonical_of cache g) ->
  well_formed o cache gt pred -> well_formed o cache' gt pred.
Proof.
  intros Hsame Hwf H0. destruct (Hwf H0) as [H1 Hc]. split; [assumption|].
  intros Hcan. destruct (Hc Hcan) as [gene [H4 Hor]]. exists gene.
  split; [assumption|]. destruct Hor as [Hle|[it6 [tr [H6 Htr]]]]; [now left|].
  right. exists it6, tr. split; [assumption|]. now rewrite Hsame.
Qed.

Lemma scan_annotations_returns (o : options) (gt : string) (preds : list string) :
  forall m cache,
    known m ->
    (forall pred, In pred preds -> well_formed o cache gt pred) ->
    exists r cache', scan_annotations o preds gt m cache = Ok (r, cache').
Proof.
  induction preds as [|pred preds IH]; intros m cache Hm Hwf; [simpl; eauto|].
  cbn [scan_annotations].
  destruct (split_nonempty "|" pred) as [w [ws Hs]].
  assert (Hw0 : nth_error (split "|" pred) 0 = Some w) by now rewrite Hs.
  apply item_nth_error in Hw0. rewrite Hw0. cbn [bind].
  assert (Htail : forall c, (forall g, canonical_of c g = canonical_of cache g) ->
                            forall p, In p preds -> well_formed o c gt p).
  { intros c Hc p Hp. eapply well_formed_cache; [exact Hc|]. apply Hwf. now right. }
  destruct (String.eqb_spec w gt) as [->|Hne]; cbn [negb].
  2:{ apply IH; [assumption|]. apply Htail. reflexivity. }
  apply item_nth_error in Hw0.
  destruct (Hwf pred (or_introl eq_refl) Hw0) as [[it1 H1] Hc].
  destruct (canonical_only_returns o (split "|" pred) cache Hc) as [keep [cache1 Hco]].
  rewrite Hco. cbn [bind].
  destruct (canonical_only_spec _ _ _ _ _ Hco) as [Hsame _].
  destruct keep; [|apply IH; auto].
  apply item_nth_error in H1. rewrite H1. cbn [bind].
  destruct (scan_effects_returns (split "&" it1) m Hm) as [m' Hm'].
  rewrite Hm'. cbn [bind]. apply IH; [|auto].
  destruct (known_severity m Hm) as [vm [_ Hvm]].
  destruct (scan_effects_spec _ _ _ _ Hvm Hm') as [vr [Hr _]].
  eapply severity_known; eauto.
Qed.

Lemma severity_None : severity "None" = Ok (-1)%Q.
Proof. reflexivity. Qed.

Lemma find_effects_known (o : options) (vcf_rec : vcf_record)
    (sample_gt : option string) (cache cache' : transcripts) (r : string) :
  find_effects o vcf_rec sample_gt cache = Ok (r, cache') -> known r.
Proof.
  unfold find_effects. destruct (lookup "ANN" (INFO vcf_rec)) as [[[|x l]|preds]|].
  - intros H. inversion H. reflexivity.
  - discriminate.
  - intros H.
    destruct (scan_annotations_spec _ _ _ _ _ _ _ _ severity_None H) as [vr [Hr _]].
    eapply severity_known; eauto.
  - intros H. inversion H. reflexivity.
Qed.

(** C3. Whatever [find_effects] returns is a known term that no known term
    of a usable annotation (called allele in the leading field, canonical
    transcript in canonical-only mode) outranks: it never returns [t2] when
    a more severe [t1] is carried by such an annotation.  It returns "None"
    when the record has no ANN entry, when no annotation is for the called
    allele, and whenever no usable annotation carries a known term.  It
    returns whenever the annotations for the called allele are well formed. *)
Theorem find_effects_most_severe (o : options) (vcf_rec : vcf_record)
    (sample_gt : option string) (cache : transcripts) :
  (forall r cache',
     find_effects o vcf_rec sample_gt cache = Ok (r, cache') ->
     known r /\
     (forall preds pred t1 t2 v1 v2,
        lookup "ANN" (INFO vcf_rec) = Some (InfoStrs preds) ->
        In pred preds -> usable o cache (str_of_alt sample_gt) pred ->
        carries pred t1 ->
        severity t1 = Ok v1 -> severity t2 = Ok v2 -> (v2 < v1)%Q ->
        r <> t2) /\
     ((forall preds pred t,
         lookup "ANN" (INFO vcf_rec) = Some (InfoStrs preds) ->
         In pred preds -> usable o cache (str_of_alt sample_gt) pred ->
         carries pred t -> ~ known t) ->
      r = "None")) /\
  (lookup "ANN" (INFO vcf_rec) = None ->
   find_effects o vcf_rec sample_gt cache = Ok ("None", cache)) /\
  (forall preds,
     lookup "ANN" (INFO vcf_rec) = Some (InfoStrs preds) ->
     (forall pred, In pred preds ->
                   nth_error (split "|" pred) 0 <> Some (str_of_alt sample_gt)) ->
     find_effects o vcf_rec sample_gt cache = Ok ("None", cache)) /\
  (forall preds,
     lookup "ANN" (INFO vcf_rec) = Some (InfoStrs preds) ->
     (forall pred, In pred preds ->
                   well_formed o cache (str_of_alt sample_gt) pred) ->
     exists r cache', find_effects o vcf_rec sample_gt cache = Ok (r, cache')).
Proof.
  split; [|split; [|split]].
  - intros r cache' H. split; [eapply find_effects_known; eauto|].
    unfold find_effects in H.
    destruct (lookup "ANN" (INFO vcf_rec)) as [[[|x l]|preds]|] eqn:Eann.
    + inversion H. subst. split; [discriminate | reflexivity].
    + discriminate.
    + destruct (scan_annotations_spec _ _ _ _ _ _ _ _ severity_None H)
        as [vr [Hr [_ [_ [Hall Hor]]]]].
      split.
      * intros preds' pred t1 t2 v1 v2 Hp Hin Hu Hc H1 H2 Hlt ->.
        inversion Hp. subst preds'. rewrite Hr in H2. inversion H2. subst v2.
        apply (Qlt_not_le _ _ Hlt). eapply Hall; eauto.
      * intros Hnone. destruct Hor as [->|[pred [Hin [Hu [Hc _]]]]]; [reflexivity|].
        exfalso. apply (Hnone preds pred r eq_refl Hin Hu Hc).
        eapply severity_known; eauto.
    + inversion H. subst. split; [discriminate | reflexivity].
  - intros Hann. unfold find_effects. now rewrite Hann.
  - intros preds Hann Hall. unfold find_effects. rewrite Hann.
    now apply scan_annotations_mismatch.
  - intros preds Hann Hwf. unfold find_effects. rewrite Hann.
    apply scan_annotations_returns; [reflexivity | assumption].
Qed.

(** ** The population-frequency gate *)

Lemma max_from_spec (l : list Q) :
  forall m, In (max_from m l) (m :: l) /\
            forall x, In x (m :: l) -> (x <= max_from m l)%Q.
Proof.
  induction l as [|y l IH]; intros m; simpl max_from.
  - split; [now left|]. intros x [<-|[]]. apply Qle_refl.
  - destruct (IH (if Qltb m y then y else m)) as [Hin Hle].
    assert (Hm : (m <= (if Qltb m y then y else m))%Q /\
                 (y <= (if Qltb m y then y else m))%Q).
    { destruct (Qltb m y) eqn:E.
      - apply Qltb_lt in E. split; [now apply Qlt_le_weak | apply Qle_refl].
      - apply Qltb_ge in E. split; [apply Qle_refl | assumption]. }
    split.
    + destruct Hin as [Hin|Hin]; [|now right; right].
      rewrite <- Hin. destruct (Qltb m y); [right; now left | now left].
    + intros x [<-|[<-|Hx]].
      * eapply Qle_trans; [apply Hm | apply Hle; now left].
      * eapply Qle_trans; [apply Hm | apply Hle; now left].
      * apply Hle. now right.
Qed.

Lemma py_max_le (l : list Q) (m t : Q) :
  py_max l = Ok m -> ((m <= t)%Q <-> forall x, In x l -> (x <= t)%Q).
Proof.
  destruct l as [|y l]; [discriminate|]. intros H. inversion H. subst m.
  destruct (max_from_spec l y) as [Hin Hle]. split.
  - intros Hm x Hx. eapply Qle_trans; [apply Hle; assumption | assumption].
  - intros Hall. now apply Hall.
Qed.

Lemma popfreq_nums_app (xs : list (option Q)) :
  forall popfreq, popfreq_nums xs popfreq = popfreq ++ map null_as_zero xs.
Proof.
  induction xs as [|[x|] xs IH]; intros popfreq; simpl.
  - now rewrite app_nil_r.
  - rewrite IH, <- app_assoc. reflexivity.
  - rewrite IH, <- app_assoc. reflexivity.
Qed.

Lemma popfreq_strs_spec (xs : list string) :
  forall popfreq,
    match popfreq_strs xs popfreq with
    | Ok pf => exists vs, pf = popfreq ++ vs /\
                          forall v, In v vs <-> exists x, In x xs /\ py_float x = Ok v
    | Raise e => exists x, In x xs /\ py_float x = Raise e
    end.
Proof.
  induction xs as [|x xs IH]; intros popfreq; cbn [popfreq_strs].
  - exists []. split; [now rewrite app_nil_r|].
    intros v. split; [intros [] | intros [x [[] _]]].
  - destruct (py_float x) as [v0|e] eqn:Ex; cbn [bind].
    + specialize (IH (popfreq ++ [v0])).
      destruct (popfreq_strs xs (popfreq ++ [v0])) as [pf|e].
      * destruct IH as [vs [-> Hvs]]. exists (v0 :: vs).
        split; [now rewrite <- app_assoc|].
        intros v. cbn [In]. rewrite Hvs. split.
        -- intros [<-|[x' [Hx' Hv]]]; [exists x; auto | exists x'; auto].
        -- intros [x' [[<-|Hx'] Hv]]; [left; congruence | right; exists x'; auto].
      * destruct IH as [x' [Hx' He]]. exists x'. split; [now right | exact He].
    + exists x. split; [now left | exact Ex].
Qed.

Lemma frequency_of_cons (field : string) (fields : list string)
    (info : list (string * info_value)) (v : Q) :
  frequency_of (field :: fields) info v <->
  frequency_of [field] info v \/ frequency_of fields info v.
Proof.
  unfold frequency_of. split.
  - intros [f [[<-|Hf] H]]; [left; exists field | right; exists f]; cbn [In]; auto.
  - intros [[f [[<-|[]] H]]|[f [Hf H]]]; [exists field | exists f]; cbn [In]; auto.
Qed.

Lemma popfreq_fields_spec (info : list (string * info_value)) (fields : list string) :
  forall popfreq,
    match popfreq_fields fields info popfreq with
    | Ok pf =>
        (exists more, pf = popfreq ++ more) /\
        forall v, In v pf <-> In v popfreq \/ frequency_of fields info v
    | Raise e =>
        exists field xs x,
          In field fields /\ lookup field info = Some (InfoStrs xs) /\
          In x xs /\ py_float x = Raise e
    end.
Proof.
  induction fields as [|field fields IH]; intros popfreq; cbn [popfreq_fields].
  - split; [exists []; now rewrite app_nil_r|].
    intros v. split; [auto|]. intros [H|[f [[] _]]]. assumption.
  - assert (Hone : forall v, frequency_of [field] info v <->
                     match lookup field info with
                     | Some (InfoNums xs) => exists y, In y xs /\ v = null_as_zero y
                     | Some (InfoStrs xs) => exists x, In x xs /\ py_float x = Ok v
                     | None => False
                     end).
    { intros v. unfold frequency_of. split.
      - intros [f [[<-|[]] H]]. exact H.
      - intros H. exists field. split; [now left | exact H]. }
    assert (Hraise : forall e,
              (exists f xs x, In f fields /\ lookup f info = Some (InfoStrs xs) /\
                              In x xs /\ py_float x = Raise e) ->
              exists f xs x, In f (field :: fields) /\
                             lookup f info = Some (InfoStrs xs) /\
                             In x xs /\ py_float x = Raise e).
    { intros e [f [xs [x [Hf H]]]]. exists f, xs, x. split; [now right | exact H]. }
    destruct (lookup field info) as [[xs|xs]|] eqn:Ef.
    + specialize (IH (popfreq_nums xs popfreq)).
      destruct (popfreq_fields fields info (popfreq_nums xs popfreq)) as [pf|e];
        [|now apply Hraise].
      destruct IH as [[more Hmore] Hin]. rewrite popfreq_nums_app in *.
      split; [exists (map null_as_zero xs ++ more); now rewrite app_assoc|].
      intros v. rewrite Hin, in_app_iff, in_map_iff, frequency_of_cons, Hone.
      split.
      * intros [[H|[y [Hy Hyin]]]|H]; auto. right. left. exists y. auto.
      * intros [H|[[y [Hy Hv]]|H]]; auto. left. right. exists y. auto.
    + pose proof (popfreq_strs_spec xs popfreq) as Hs.
      destruct (popfreq_strs xs popfreq) as [popfreq'|e]; cbn [bind].
      * destruct Hs as [vs [-> Hvs]]. specialize (IH (popfreq ++ vs)).
        destruct (popfreq_fields fields info (popfreq ++ vs)) as [pf|e];
          [|now apply Hraise].
        destruct IH as [[more Hmore] Hin].
        split; [exists (vs ++ more); now rewrite app_assoc|].
        intros v. rewrite Hin, in_app_iff, frequency_of_cons, Hone, Hvs.
        apply or_assoc.
      * destruct Hs as [x [Hx He]]. exists field, xs, x. cbn [In]. auto.
    + specialize (IH popfreq).
      destruct (popfreq_fields fields info popfreq) as [pf|e]; [|now apply Hraise].
      destruct IH as [Hmore Hin]. split; [assumption|].
      intros v. rewrite Hin, frequency_of_cons, Hone.
      split; [intros [H|H]; auto | intros [H|[[]|H]]; auto].
Qed.

(** C7. The gate returns unless [float] raises on a text entry of a
    configured field, and then it raises that exception. When it returns,
    the list of frequencies holds 0.0, its seed, and what the entries of
    the configured fields present in INFO contribute (a number itself, a
    null as 0.0, a text as [float] reads it), and the gate passes exactly
    when the seed and every contribution are at most the threshold; with
    no field present the list is [0.0] and the maximum 0.0. *)
Theorem popfreq_gate_spec (o : options) (vcf_rec : vcf_record) :
  match popfreq_gate o vcf_rec with
  | Ok b =>
      exists pf m,
        find_popfreq vcf_rec = Ok pf /\ py_max pf = Ok m /\
        b = Qle_bool m (popfreq o) /\
        (forall v, In v pf <->
                   v = 0%Q \/ frequency_of FREQ_FIELDS (INFO vcf_rec) v) /\
        (b = true <->
         (0 <= popfreq o)%Q /\
         forall v, frequency_of FREQ_FIELDS (INFO vcf_rec) v -> (v <= popfreq o)%Q) /\
        ((forall field, In field FREQ_FIELDS -> lookup field (INFO vcf_rec) = None) ->
         pf = [0%Q] /\ m = 0%Q)
  | Raise e =>
      find_popfreq vcf_rec = Raise e /\
      exists field xs x,
        In field FREQ_FIELDS /\ lookup field (INFO vcf_rec) = Some (InfoStrs xs) /\
        In x xs /\ py_float x = Raise e
  end.
Proof.
  pose proof (popfreq_fields_spec (INFO vcf_rec) FREQ_FIELDS [0%Q]) as Hspec.
  unfold popfreq_gate, find_popfreq.
  destruct (popfreq_fields FREQ_FIELDS (INFO vcf_rec) [0%Q]) as [pf|e] eqn:Hpf;
    cbn [bind]; [|split; [reflexivity | exact Hspec]].
  destruct Hspec as [[more Hmore] Hin].
  assert (Hmax : exists m, py_max pf = Ok m).
  { subst pf. simpl. eauto. }
  destruct Hmax as [m Hm]. rewrite Hm. cbn [bind].
  assert (Hin' : forall v, In v pf <->
                           v = 0%Q \/ frequency_of FREQ_FIELDS (INFO vcf_rec) v).
  { intros v. rewrite Hin. cbn [In]. split.
    - intros [[H|[]]|H]; auto.
    - intros [H|H]; auto. }
  assert (Hgate : Qle_bool m (popfreq o) = true <->
                  (0 <= popfreq o)%Q /\
                  forall v, frequency_of FREQ_FIELDS (INFO vcf_rec) v ->
                            (v <= popfreq o)%Q).
  { rewrite Qle_bool_iff, (py_max_le pf m (popfreq o) Hm). split.
    - intros Hall. split; [|intros v Hv]; apply Hall; apply Hin'; auto.
    - intros [H0 Hall] v Hv. apply Hin' in Hv. destruct Hv as [->|Hv]; auto. }
  exists pf, m.
  split; [reflexivity|]. split; [exact Hm|]. split; [reflexivity|].
  split; [exact Hin'|]. split; [exact Hgate|].
  intros Hnone.
  assert (Hpf0 : popfreq_fields FREQ_FIELDS (INFO vcf_rec) [0%Q] = Ok [0%Q]).
  { unfold FREQ_FIELDS. cbn [popfreq_fields].
    rewrite !Hnone by (simpl; auto 10). reflexivity. }
  assert (Hpf1 : pf = [0%Q]) by congruence.
  split; [assumption|]. rewrite Hpf1 in Hm. cbn [py_max max_from] in Hm.
  congruence.
Qed.

(** ** The record filter *)

Lemma check_depth_antitone (o : options) (d : Z) (sgenot : call) :
  d <= mindepth o ->
  check_depth o sgenot = Ok true ->
  check_depth (with_mindepth o d) sgenot = Ok true.
Proof.
  intros Hd. unfold check_depth.
  change (DEPTH_KEY (with_mindepth o d)) with (DEPTH_KEY o).
  change (mindepth (with_mindepth o d)) with d.
  destruct (call_getitem sgenot (DEPTH_KEY o)) as [v|e]; [|discriminate].
  cbn [bind].
  assert (Hlt : forall n, (if n <? mindepth o then Ok false else Ok true) = Ok true ->
                          (if n <? d then Ok false else Ok true) = Ok true).
  { intros n. destruct (Z.ltb_spec n (mindepth o)); [discriminate|].
    intros _. destruct (Z.ltb_spec n d); [lia | reflexivity]. }
  destruct v as [|n|l|t]; try apply Hlt;
    (destruct (py_sum _) as [total|e]; [cbn [bind]; apply Hlt | discriminate]).
Qed.

Lemma qc_filter_shape (o : options) (vcf_rec : vcf_record) (sgenot : call)
    (effects effects' : list string) (records records' : list (option vcf_record))
    (PASS : bool) :
  qc_filter o vcf_rec sgenot effects records = Ok (PASS, effects', records') ->
  (check_ad o sgenot = false /\ PASS = false /\
   effects' = effects /\ records' = records) \/
  (check_ad o sgenot = true /\ check_depth o sgenot = Ok false /\ PASS = false /\
   effects' = effects /\ records' = records) \/
  (check_ad o sgenot = true /\ check_depth o sgenot = Ok true /\
   effects' = effects ++ ["clean"] /\ records' = records ++ [None] /\
   (exists q, logged_vaf o sgenot = Ok q) /\
   (PASS = true ->
    check_vaf o sgenot = Ok true /\ popfreq_gate o vcf_rec = Ok true /\
    cohfreq_gate o vcf_rec = Ok true)).
Proof.
  unfold qc_filter. destruct (check_ad o sgenot); [|intros H; inversion H; auto].
  intros H. bind_inv H. destruct a; [|inversion H; auto 10].
  bind_inv H. bind_inv H. right. right.
  assert (Hq : exists q, logged_vaf o sgenot = Ok q) by eauto.
  destruct a0; [|inversion H; repeat split; auto; discriminate].
  bind_inv H. destruct a0; [|inversion H; repeat split; auto; discriminate].
  bind_inv H. destruct a0; inversion H; repeat split; auto; discriminate.
Qed.

(** C8. Lowering the depth threshold keeps a passing depth check passing
    and a PASS of the whole filter a PASS, with the same containers; so
    raising it never turns a FAIL into a PASS. *)
Theorem qc_filter_depth_antitone (o : options) (d : Z) (vcf_rec : vcf_record)
    (sgenot : call) (effects : list string) (records : list (option vcf_record)) :
  d <= mindepth o ->
  (check_depth o sgenot = Ok true ->
   check_depth (with_mindepth o d) sgenot = Ok true) /\
  (forall effects' records',
     qc_filter o vcf_rec sgenot effects records = Ok (true, effects', records') ->
     qc_filter (with_mindepth o d) vcf_rec sgenot effects records
     = Ok (true, effects', records')) /\
  (forall effects' records',
     qc_filter (with_mindepth o d) vcf_rec sgenot effects records
     = Ok (false, effects', records') ->
     forall effects'' records'',
       qc_filter o vcf_rec sgenot effects records <> Ok (true, effects'', records'')).
Proof.
  intros Hd.
  assert (Hpass : forall effects' records',
     qc_filter o vcf_rec sgenot effects records = Ok (true, effects', records') ->
     qc_filter (with_mindepth o d) vcf_rec sgenot effects records
     = Ok (true, effects', records')).
  { intros effects' records' H.
    destruct (qc_filter_shape _ _ _ _ _ _ _ _ H)
      as [[_ [Hf _]]|[[_ [_ [Hf _]]]|[Had [Hdepth [-> [-> [[q Hq] Hrest]]]]]]];
      try discriminate.
    destruct (Hrest eq_refl) as [Hvaf [Hpop Hcoh]].
    unfold qc_filter.
    change (check_ad (with_mindepth o d) sgenot) with (check_ad o sgenot).
    change (logged_vaf (with_mindepth o d) sgenot) with (logged_vaf o sgenot).
    change (check_vaf (with_mindepth o d) sgenot) with (check_vaf o sgenot).
    change (popfreq_gate (with_mindepth o d) vcf_rec) with (popfreq_gate o vcf_rec).
    change (cohfreq_gate (with_mindepth o d) vcf_rec) with (cohfreq_gate o vcf_rec).
    rewrite Had, (check_depth_antitone o d sgenot Hd Hdepth). cbn [bind].
    rewrite Hq. cbn [bind]. rewrite Hvaf. cbn [bind]. rewrite Hpop. cbn [bind].
    rewrite Hcoh. reflexivity. }
  split; [now apply check_depth_antitone|]. split; [exact Hpass|].
  intros effects' records' Hfail effects'' records'' H.
  apply Hpass in H. congruence.
Qed.

(** C10. Once the allele-support, depth, VAF and population-frequency
    stages have passed, the filter has a result only if INFO has the key
    "MLEAF": without it the evaluation raises, a [KeyError] when the logged
    VAF expression could be computed. *)
Theorem cohort_gate_requires_MLEAF (o : options) (vcf_rec : vcf_record)
    (sgenot : call) (effects : list string) (records : list (option vcf_record)) :
  check_ad o sgenot = true ->
  check_depth o sgenot = Ok true ->
  check_vaf o sgenot = Ok true ->
  popfreq_gate o vcf_rec = Ok true ->
  (lookup "MLEAF" (INFO vcf_rec) = None ->
   (exists e, qc_filter o vcf_rec sgenot effects records = Raise e) /\
   (forall q, logged_vaf o sgenot = Ok q ->
              qc_filter o vcf_rec sgenot effects records = Raise KeyError)) /\
  (forall res, qc_filter o vcf_rec sgenot effects records = Ok res ->
               exists v, lookup "MLEAF" (INFO vcf_rec) = Some v).
Proof.
  intros Had Hdepth Hvaf Hpop.
  assert (Hcoh : lookup "MLEAF" (INFO vcf_rec) = None ->
                 cohfreq_gate o vcf_rec = Raise KeyError).
  { intros Hm. unfold cohfreq_gate, getitem. now rewrite Hm. }
  unfold qc_filter. rewrite Had, Hdepth. cbn [bind].
  destruct (logged_vaf o sgenot) as [q|e]; cbn [bind].
  - rewrite Hvaf. cbn [bind]. rewrite Hpop. cbn [bind]. split.
    + intros Hm. rewrite (Hcoh Hm). cbn [bind]. split; eauto.
    + intros res H. destruct (lookup "MLEAF" (INFO vcf_rec)) eqn:Em; [eauto|].
      rewrite (Hcoh eq_refl) in H. discriminate.
  - split; [|discriminate]. intros _. split; [eauto | discriminate].
Qed.

(** ** What one record adds to a sample's containers *)

Lemma scan_sample_cases (o : options) (vcf_rec : vcf_record) (samplename : string)
    (effects effects' : list string) (records records' : list (option vcf_record))
    (cache cache' : transcripts) :
  scan_sample o vcf_rec samplename effects records cache
  = Ok (effects', records', cache') ->
  exists sgenot PASS e1 r1,
    genotype vcf_rec samplename = Ok sgenot /\
    qc_filter o vcf_rec sgenot effects records = Ok (PASS, e1, r1) /\
    if (PASS : bool) then
      exists sample_gt eff,
        called_allele vcf_rec sgenot = Ok sample_gt /\
        find_effects o vcf_rec sample_gt cache = Ok (eff, cache') /\
        effects' = e1 ++ [eff] /\ records' = r1 ++ [Some vcf_rec]
    else effects' = e1 /\ records' = r1 /\ cache' = cache.
Proof.
  unfold scan_sample. intros H.
  destruct (genotype vcf_rec samplename) as [sgenot|e] eqn:Eg.
  2:{ unfold genotype, getitem in Eg.
      destruct (lookup samplename (samples vcf_rec)); inversion Eg.
      subst e. discriminate. }
  bind_inv H. bind_inv H. destruct a0 as [[PASS e1] r1].
  exists sgenot, PASS, e1, r1. split; [reflexivity|]. split; [assumption|].
  destruct PASS.
  - bind_inv H. rename a0 into sample_gt. bind_inv H. destruct a0 as [eff c].
    inversion H. subst. exists sample_gt, eff. auto.
  - inversion H. auto.
Qed.

(** C1, as the code has it.  For a record and a sample whose allele-support
    field is present and not null, a completed step appends nothing when
    the depth check fails, the single entry "clean" when the depth check
    passes and a later stage fails, and "clean" followed by the resolved
    effect (two entries) when all stages pass. *)
Theorem scan_sample_appends (o : options) (vcf_rec : vcf_record) (samplename : string)
    (sgenot : call) (effects effects' : list string)
    (records records' : list (option vcf_record)) (cache cache' : transcripts) :
  genotype vcf_rec samplename = Ok sgenot ->
  check_ad o sgenot = true ->
  scan_sample o vcf_rec samplename effects records cache
  = Ok (effects', records', cache') ->
  exists depth_ok,
    check_depth o sgenot = Ok depth_ok /\
    if (depth_ok : bool) then
      exists PASS,
        qc_filter o vcf_rec sgenot effects records
        = Ok (PASS, effects ++ ["clean"], records ++ [None]) /\
        if (PASS : bool) then
          exists sample_gt eff,
            called_allele vcf_rec sgenot = Ok sample_gt /\
            find_effects o vcf_rec sample_gt cache = Ok (eff, cache') /\
            effects' = effects ++ ["clean"; eff] /\
            records' = records ++ [None; Some vcf_rec]
        else effects' = effects ++ ["clean"] /\ records' = records ++ [None]
    else effects' = effects /\ records' = records.
Proof.
  intros Hg Had H.
  destruct (scan_sample_cases _ _ _ _ _ _ _ _ _ H)
    as [sg [PASS [e1 [r1 [Hg' [Hqc Hrest]]]]]].
  rewrite Hg in Hg'. inversion Hg'. subst sg.
  destruct (qc_filter_shape _ _ _ _ _ _ _ _ Hqc)
    as [[Had' _]|[[_ [Hdepth [-> [-> ->]]]]|[_ [Hdepth [-> [-> _]]]]]].
  - congruence.
  - exists false. split; [assumption|]. destruct Hrest as [-> [-> _]]. auto.
  - exists true. split; [assumption|]. exists PASS. split; [assumption|].
    destruct PASS.
    + destruct Hrest as [sample_gt [eff [Hgt [Heff [-> ->]]]]].
      exists sample_gt, eff. rewrite <- !app_assoc. auto.
    + destruct Hrest as [-> [-> _]]. auto.
Qed.

(** ** The containers collected over a gene *)

Lemma known_clean : known "clean".
Proof. reflexivity. Qed.

Lemma scan_sample_aligned (o : options) (vcf_rec : vcf_record) (samplename : string)
    (effects effects' : list string) (records records' : list (option vcf_record))
    (cache cache' : transcripts) :
  aligned (samplename, (effects, records)) ->
  scan_sample o vcf_rec samplename effects records cache
  = Ok (effects', records', cache') ->
  aligned (samplename, (effects', records')).
Proof.
  unfold aligned. cbn [fst snd]. intros [Hk Hlen] H.
  destruct (scan_sample_cases _ _ _ _ _ _ _ _ _ H)
    as [sg [PASS [e1 [r1 [_ [Hqc Hrest]]]]]].
  assert (H1 : Forall known e1 /\ length r1 = length e1).
  { destruct (qc_filter_shape _ _ _ _ _ _ _ _ Hqc)
      as [[_ [_ [-> ->]]]|[[_ [_ [_ [-> ->]]]]|[_ [_ [-> [-> _]]]]]]; auto.
    split.
    - apply Forall_app. split; [assumption|]. constructor; [apply known_clean | constructor].
    - rewrite !length_app. simpl. lia. }
  destruct H1 as [Hk1 Hlen1]. destruct PASS.
  - destruct Hrest as [gt [eff [_ [Heff [-> ->]]]]]. split.
    + apply Forall_app. split; [assumption|].
      constructor; [eapply find_effects_known; eauto | constructor].
    + rewrite !length_app. simpl. lia.
  - destruct Hrest as [-> [-> _]]. auto.
Qed.

Lemma scan_samples_aligned (o : options) (vcf_rec : vcf_record) (conts : containers) :
  forall cache conts' cache',
    Forall aligned conts ->
    scan_samples o vcf_rec conts cache = Ok (conts', cache') ->
    Forall aligned conts'.
Proof.
  induction conts as [|[samplename [effects records]] conts IH];
    intros cache conts' cache' Hal H.
  - inversion H. constructor.
  - cbn [scan_samples] in H. bind_inv H. destruct a as [[e1 r1] c1].
    bind_inv H. destruct a as [conts1 c2]. inversion H. subst.
    inversion Hal as [|? ? Hhead Htail]. subst. constructor.
    + eapply scan_sample_aligned; eauto.
    + eapply IH; eauto.
Qed.

Lemma scan_records_spec (o : options) (symbol : string) (vcf_records : list vcf_record) :
  forall nr conts cache nr' conts' cache',
    Forall aligned conts ->
    scan_records o symbol vcf_records nr conts cache = Ok (nr', conts', cache') ->
    Forall aligned conts' /\
    nr' = nr + Z.of_nat (length (filter (annotated symbol) vcf_records)).
Proof.
  induction vcf_records as [|vcf_rec vcf_records IH];
    intros nr conts cache nr' conts' cache' Hal H.
  - inversion H. subst. split; [assumption | simpl; lia].
  - cbn [scan_records] in H. cbn [filter]. unfold annotated at 1.
    destruct (lookup "ANN" (INFO vcf_rec)) as [ann|].
    + bind_inv H. rename a into found.
      assert (Hfound : found = match ann with
                               | InfoStrs anns => existsb (str_contains symbol) anns
                               | InfoNums _ => false
                               end).
      { destruct ann as [[|x l]|anns]; inversion E; reflexivity. }
      rewrite <- Hfound. destruct found.
      * bind_inv H. destruct a as [conts1 cache1].
        destruct (IH _ _ _ _ _ _ (scan_samples_aligned _ _ _ _ _ _ Hal E0) H)
          as [Hal' ->].
        split; [assumption|]. cbn [length]. lia.
      * apply (IH _ _ _ _ _ _ Hal H).
    + apply (IH _ _ _ _ _ _ Hal H).
Qed.

Lemma prep_containers_aligned (samplenames : list string) :
  Forall aligned (prep_containers samplenames).
Proof.
  unfold prep_containers. apply Forall_forall. intros c Hc.
  apply in_map_iff in Hc. destruct Hc as [samplename [<- _]].
  split; [constructor | reflexivity].
Qed.

(** ** The gene-level call *)

Lemma prefix_app (s1 s2 : string) :
  prefix s1 s2 = true <-> exists post, s2 = (s1 ++ post)%string.
Proof.
  revert s2. induction s1 as [|a s1 IH]; intros s2.
  - destruct s2; simpl; (split; [intros _; eexists; reflexivity | reflexivity]).
  - destruct s2 as [|b s2]; simpl.
    + split; [discriminate | intros [post H]; discriminate].
    + destruct (ascii_dec a b) as [->|Hne].
      * rewrite IH. split; intros [post H]; exists post; [now subst | now inversion H].
      * split; [discriminate | intros [post H]; inversion H; congruence].
Qed.

Lemma str_contains_app (needle hay : string) :
  str_contains needle hay = true <->
  exists pre post, hay = (pre ++ needle ++ post)%string.
Proof.
  induction hay as [|c hay IH].
  - cbn [str_contains]. destruct (prefix needle "") eqn:E.
    + split; [intros _ | reflexivity]. apply prefix_app in E.
      destruct E as [post E]. now exists "", post.
    + split; [discriminate|]. intros [pre [post H]].
      destruct pre; [|discriminate]. simpl in H.
      assert (prefix needle "" = true) by (apply prefix_app; eauto). congruence.
  - cbn [str_contains]. destruct (prefix needle (String c hay)) eqn:E.
    + split; [intros _ | reflexivity]. apply prefix_app in E.
      destruct E as [post E]. now exists "", post.
    + rewrite IH. split; intros [pre [post H]].
      * exists (String c pre), post. simpl. now rewrite H.
      * destruct pre as [|d pre].
        -- simpl in H.
           assert (prefix needle (String c hay) = true) by (apply prefix_app; eauto).
           congruence.
        -- inversion H. eauto.
Qed.

Lemma annotated_spec (symbol : string) (vcf_rec : vcf_record) :
  annotated symbol vcf_rec = true <->
  exists anns a pre post,
    lookup "ANN" (INFO vcf_rec) = Some (InfoStrs anns) /\ In a anns /\
    a = (pre ++ symbol ++ post)%string.
Proof.
  unfold annotated. destruct (lookup "ANN" (INFO vcf_rec)) as [[l|anns]|].
  - split; [discriminate | intros [? [? [? [? [H _]]]]]; discriminate].
  - rewrite existsb_exists. split.
    + intros [a [Hin Ha]]. apply str_contains_app in Ha.
      destruct Ha as [pre [post Ha]]. exists anns, a, pre, post. auto.
    + intros [anns' [a [pre [post [H [Hin Ha]]]]]]. inversion H. subst anns'.
      exists a. split; [assumption|]. apply str_contains_app. eauto.
  - split; [discriminate | intros [? [? [? [? [H _]]]]]; discriminate].
Qed.

Lemma count_clean_count_occ (effects : list string) :
  count_clean effects = Z.of_nat (count_occ string_dec effects "clean").
Proof.
  unfold count_clean. f_equal. induction effects as [|e effects IH]; [reflexivity|].
  cbn [filter count_occ]. destruct (string_dec e "clean") as [->|Hne].
  - rewrite String.eqb_refl. cbn [length]. f_equal. exact IH.
  - apply not_eq_sym in Hne. apply String.eqb_neq in Hne. rewrite Hne. exact IH.
Qed.

(** C4 (a defect of the code).  For the containers collected over a gene,
    [nr_of_positions] is the number of fetched records with an annotation
    that contains the gene symbol (one number for all samples), and a
    sample whose sequence is not empty and has no reportable entry is
    called "clean" exactly when the number of its "clean" entries is at
    least the integer quotient of that number by 2, and "None" otherwise:
    [nr_of_positions/2] divides two integers, where the comment above the
    test asks for 50% of the positions.  At least half is always enough;
    with an odd number of positions, half a position less than half is
    enough too. *)
Theorem clean_call_floor_of_half (o : options) (symbol : string)
    (vcf_records : list vcf_record) (samplenames : list string)
    (cache cache' : transcripts) (nr : Z) (conts : containers)
    (samplename : string) (effects : list string)
    (records : list (option vcf_record)) :
  scan_records o symbol vcf_records 0 (prep_containers samplenames) cache
  = Ok (nr, conts, cache') ->
  In (samplename, (effects, records)) conts ->
  effects <> [] ->
  (forall e, In e effects -> str_in e (toselect o) = false) ->
  nr = Z.of_nat (length (filter (annotated symbol) vcf_records)) /\
  (forall vcf_rec,
     annotated symbol vcf_rec = true <->
     exists anns a pre post,
       lookup "ANN" (INFO vcf_rec) = Some (InfoStrs anns) /\ In a anns /\
       a = (pre ++ symbol ++ post)%string) /\
  count_clean effects = Z.of_nat (count_occ string_dec effects "clean") /\
  exists c,
    aggregate o nr effects records = Ok c /\
    (df_entry c = "clean" <-> nr / 2 <= count_clean effects) /\
    (df_entry c = "None" <-> count_clean effects < nr / 2) /\
    (nr <= 2 * count_clean effects -> df_entry c = "clean") /\
    (2 * count_clean effects = nr - 1 -> df_entry c = "clean").
Proof.
  intros Hscan Hin Hne Hsel.
  destruct (scan_records_spec _ _ _ _ _ _ _ _ _
              (prep_containers_aligned samplenames) Hscan) as [Hal Hnr].
  split; [lia|]. split; [intros vcf_rec; apply annotated_spec|].
  split; [apply count_clean_count_occ|].
  rewrite Forall_forall in Hal. destruct (Hal _ Hin) as [Hk _]. cbn [fst snd] in Hk.
  eexists. split; [apply aggregate_unreportable; assumption|]. cbn [df_entry].
  assert (Hdiv : forall c, (nr <= 2 * c -> nr / 2 <= c) /\
                           (2 * c = nr - 1 -> nr / 2 <= c)).
  { intros c. split; intros H.
    - apply Z.div_le_upper_bound; lia.
    - assert (nr / 2 < c + 1) by (apply Z.div_lt_upper_bound; lia). lia. }
  destruct (Z.leb_spec (nr / 2) (count_clean effects)) as [Hle|Hlt].
  - repeat split; intros; try lia; try reflexivity; discriminate.
  - destruct (Hdiv (count_clean effects)) as [H1 H2].
    repeat split; intros; try lia; try reflexivity; try discriminate.
Qed.

(** C5. On a non-empty sequence of known terms the selected index is that
    of an entry of greatest severity, and every entry before it is
    strictly less severe: among equally severe entries the first wins. *)
Theorem select_maximum_effect_first (effects : list string) :
  effects <> [] -> Forall known effects ->
  exists loc eff v,
    select_maximum_effect effects = Ok loc /\
    item effects loc = Ok eff /\ severity eff = Ok v /\
    (forall j e w, nth_error effects j = Some e -> severity e = Ok w -> (w <= v)%Q) /\
    (forall j e w, (j < loc)%nat -> nth_error effects j = Some e ->
                   severity e = Ok w -> (w < v)%Q).
Proof.
  intros Hne Hk.
  destruct (select_maximum_effect_spec effects Hne Hk)
    as [loc [eff [v [Hloc [Heff [Hv [Hle Hlt]]]]]]].
  exists loc, eff, v. rewrite item_nth_error. auto.
Qed.

Lemma aggregate_samples_In (o : options) (nr : Z) (conts : containers) :
  forall calls samplename c,
    aggregate_samples o nr conts = Ok calls ->
    In (samplename, c) calls ->
    exists effects records,
      In (samplename, (effects, records)) conts /\
      aggregate o nr effects records = Ok c.
Proof.
  induction conts as [|[s [effects records]] conts IH]; intros calls samplename c H Hin.
  - inversion H. subst. destruct Hin.
  - cbn [aggregate_samples] in H. bind_inv H. bind_inv H. inversion H. subst.
    destruct Hin as [Heq|Hin].
    + inversion Heq. subst. exists effects, records. split; [now left | assumption].
    + destruct (IH _ _ _ E0 Hin) as [e [r [Hc Ha]]].
      exists e, r. split; [now right | assumption].
Qed.

(** C6. An empty sequence gives "None" with count 0; a sequence of known
    terms with one record slot per term always gets a call; and every call,
    also every call [gene_overview] makes, is "None", "clean" or a key of
    the vocabulary. *)
Theorem aggregate_classification (o : options) (nr : Z) :
  (forall records,
     aggregate o nr [] records
     = Ok {| df_entry := "None"; cdf_entry := 0; rdf_entry := None |}) /\
  (forall effects records,
     Forall known effects -> length records = length effects ->
     exists c, aggregate o nr effects records = Ok c) /\
  (forall effects records c,
     aggregate o nr effects records = Ok c ->
     df_entry c = "None" \/ df_entry c = "clean" \/
     In (df_entry c) (map fst vocabulary)) /\
  (forall symbol vcf_records samplenames cache calls cache' samplename c,
     gene_overview o symbol vcf_records samplenames cache = Ok (calls, cache') ->
     In (samplename, c) calls ->
     df_entry c = "None" \/ df_entry c = "clean" \/
     In (df_entry c) (map fst vocabulary)).
Proof.
  split; [intros; apply aggregate_empty|].
  split; [intros; now apply aggregate_returns|].
  split; [intros; eapply aggregate_df_entry; eauto|].
  intros symbol vcf_records samplenames cache calls cache' samplename c H Hin.
  unfold gene_overview in H. bind_inv H. destruct a as [[nr' conts] cache1].
  bind_inv H. inversion H. subst.
  destruct (aggregate_samples_In _ _ _ _ _ _ E0 Hin) as [e [r [_ Ha]]].
  eapply aggregate_df_entry; eauto.
Qed.

(** C2, as the code has it.  When the worst effect of a sequence is
    reportable and has no entry in [mapping], the aggregator returns
    normally: the call names the effect, nothing is retained for the chart,
    and the pair adds no row to it. *)
Theorem unmapped_effect_no_row (o : options) (nr : Z) (effects : list string)
    (records : list (option vcf_record)) (loc : nat) (eff samplename gene : string) :
  select_maximum_effect effects = Ok loc ->
  item effects loc = Ok eff ->
  str_in eff (toselect o) = true ->
  lookup eff mapping = None ->
  exists c,
    aggregate o nr effects records = Ok c /\
    df_entry c = eff /\ cdf_entry c = count_selected o effects /\
    rdf_entry c = None /\
    chart_rows_of_call o samplename gene c = Ok [].
Proof.
  intros Hloc Heff Hsel Hmap. unfold aggregate.
  assert (Hne : (length effects <=? 0)%nat = false).
  { destruct effects; [|reflexivity]. apply item_nth_error in Heff.
    destruct loc; discriminate. }
  rewrite Hne, Hloc. cbn [bind]. rewrite Heff. cbn [bind].
  rewrite Hsel, Hmap. eexists. split; [reflexivity|]. auto.
Qed.

(** ** The chart row *)



(** * Further properties of the filter *)

Lemma sum_from_shift (l : list (option Z)) :
  forall acc,
    sum_from acc l =
    match sum_from 0 l with
    | Ok s => Ok (acc + s)
    | Raise e => Raise e
    end.
Proof.
  induction l as [|[n|] l IH]; intros acc; simpl.
  - f_equal. lia.
  - rewrite (IH (acc + n)), (IH n).
    destruct (sum_from 0 l); [f_equal; lia | reflexivity].
  - reflexivity.
Qed.

Lemma sum_from_counts (l : list (option Z)) (s : Z) :
  Forall is_count l -> sum_from 0 l = Ok s -> 0 <= s.
Proof.
  revert s. induction l as [|[n|] l IH]; intros s Hc H.
  - inversion H. lia.
  - simpl in H. rewrite sum_from_shift in H.
    inversion Hc as [|? ? Hn Hl]. subst. simpl in Hn.
    destruct (sum_from 0 l) as [t|e]; inversion H.
    specialize (IH t Hl eq_refl). lia.
  - discriminate.
Qed.

Lemma DEPTH_KEY_GATK (o : options) : format o = "GATK" -> DEPTH_KEY o = "AD".
Proof. unfold DEPTH_KEY. now intros ->. Qed.

Lemma VAF_KEY_GATK (o : options) : format o = "GATK" -> VAF_KEY o = "AD".
Proof. unfold VAF_KEY. now intros ->. Qed.

Lemma sum_from_numbers (l : list (option Z)) (s : Z) :
  sum_from 0 l = Ok s -> Forall (fun x => x <> None) l.
Proof.
  revert s. induction l as [|[n|] l IH]; intros s H.
  - constructor.
  - simpl in H. rewrite sum_from_shift in H.
    destruct (sum_from 0 l) as [t|e] eqn:Et; [|discriminate].
    constructor; [discriminate | now apply (IH t)].
  - discriminate.
Qed.

(** X1. GATK layout, AD a list, minimum depth at least 1: once the depth
    check passes, every entry of AD is a number and the two sums of the
    VAF expression are defined; its divisor is the total support, which is
    at least the minimum depth and so not zero; its dividend is the support
    of the alleles after the first, which lies between 0 and the divisor
    when all entries are counts. *)
Theorem gatk_vaf_defined (o : options) (sgenot : call) (l : list (option Z)) :
  format o = "GATK" ->
  lookup "AD" sgenot = Some (GList l) ->
  1 <= mindepth o ->
  check_depth o sgenot = Ok true ->
  exists a total,
    alt_support o sgenot = Ok a /\
    (d <- call_getitem sgenot (DEPTH_KEY o) ;; py_sum d) = Ok total /\
    sum_from 0 (tl l) = Ok a /\ sum_from 0 l = Ok total /\
    Forall (fun x => x <> None) l /\
    mindepth o <= total /\ total <> 0 /\
    (Forall is_count l -> 0 <= a <= total).
Proof.
  intros Hfmt Had Hmin Hdepth.
  unfold check_depth, alt_support in *.
  rewrite (DEPTH_KEY_GATK o Hfmt) in *. rewrite (VAF_KEY_GATK o Hfmt).
  unfold call_getitem in *. rewrite Had in *. cbn [bind py_sum py_tail] in *.
  destruct (sum_from 0 l) as [total|e] eqn:Etot; [|discriminate].
  cbn [bind] in Hdepth.
  destruct (Z.ltb_spec total (mindepth o)) as [|Hge]; [discriminate|].
  assert (Ha : exists a n, l = Some n :: tl l /\ sum_from 0 (tl l) = Ok a /\
                           total = n + a).
  { destruct l as [|[n|] l']; simpl in Etot.
    - inversion Etot. lia.
    - rewrite sum_from_shift in Etot. simpl.
      destruct (sum_from 0 l') as [a|e]; inversion Etot. eauto.
    - discriminate. }
  destruct Ha as [a [n [Hl [Ha Htot]]]]. rewrite Ha.
  exists a, total.
  split; [reflexivity|]. split; [reflexivity|]. split; [reflexivity|].
  split; [reflexivity|]. split; [exact (sum_from_numbers l total Etot)|].
  split; [assumption|]. split; [lia|].
  intros Hc.
  assert (H0a : 0 <= a).
  { apply (sum_from_counts (tl l)); [|assumption].
    destruct l; [constructor | now inversion Hc]. }
  assert (H0n : 0 <= n).
  { rewrite Hl in Hc. now inversion Hc. }
  lia.
Qed.

(** X2. A depth field that is a single integer and passes the depth check
    makes the filter raise: the logged VAF expression takes [sum] of the
    integer.  The step of the sample loop raises with it. *)
Theorem scalar_depth_filter_raises (o : options) (vcf_rec : vcf_record)
    (sgenot : call) (effects : list string) (records : list (option vcf_record))
    (n : Z) :
  call_getitem sgenot (DEPTH_KEY o) = Ok (GInt n) ->
  mindepth o <= n ->
  (exists e,
     qc_filter o vcf_rec sgenot effects records = Raise e /\
     (forall a, alt_support o sgenot = Ok a -> e = TypeError)) /\
  (forall samplename cache,
     genotype vcf_rec samplename = Ok sgenot ->
     exists e, scan_sample o vcf_rec samplename effects records cache = Raise e).
Proof.
  intros Hd Hn.
  assert (Hqc : exists e,
            qc_filter o vcf_rec sgenot effects records = Raise e /\
            (forall a, alt_support o sgenot = Ok a -> e = TypeError)).
  { unfold qc_filter, check_ad, check_depth, logged_vaf. rewrite Hd. cbn [bind].
    destruct (Z.ltb_spec n (mindepth o)) as [|_]; [lia|]. cbn [bind].
    destruct (alt_support o sgenot) as [a|e]; cbn [bind py_sum].
    - exists TypeError. auto.
    - exists e. split; [reflexivity | discriminate]. }
  split; [exact Hqc|]. intros samplename cache Hg.
  destruct Hqc as [e [Hqc _]]. unfold scan_sample. rewrite Hg.
  destruct (call_getitem sgenot "GT") as [gt|e']; cbn [bind]; [|eauto].
  rewrite Hqc. cbn [bind]. eauto.
Qed.

Lemma check_depth_relaxed (o o' : options) (sgenot : call) :
  format o' = format o -> mindepth o' <= mindepth o ->
  check_depth o sgenot = Ok true -> check_depth o' sgenot = Ok true.
Proof.
  intros Hfmt Hd. unfold check_depth, DEPTH_KEY. rewrite Hfmt.
  fold (DEPTH_KEY o).
  destruct (call_getitem sgenot (DEPTH_KEY o)) as [v|e]; [|discriminate].
  cbn [bind].
  assert (Hlt : forall n, (if n <? mindepth o then Ok false else Ok true) = Ok true ->
                          (if n <? mindepth o' then Ok false else Ok true) = Ok true).
  { intros n. destruct (Z.ltb_spec n (mindepth o)); [discriminate|].
    intros _. destruct (Z.ltb_spec n (mindepth o')); [lia | reflexivity]. }
  destruct v as [|n|l|t]; try apply Hlt;
    (destruct (py_sum _) as [total|e]; [cbn [bind]; apply Hlt | discriminate]).
Qed.

Lemma check_vaf_relaxed (o o' : options) (sgenot : call) :
  format o' = format o -> (minvaf o' <= minvaf o)%Q ->
  check_vaf o sgenot = Ok true -> check_vaf o' sgenot = Ok true.
Proof.
  intros Hfmt Hv. unfold check_vaf, alt_support, DEPTH_KEY, VAF_KEY. rewrite Hfmt.
  fold (DEPTH_KEY o). fold (VAF_KEY o).
  assert (Hlt : forall q, (if Qltb q (minvaf o) then Ok false else Ok true) = Ok true ->
                          (if Qltb q (minvaf o') then Ok false else Ok true) = Ok true).
  { intros q. destruct (Qltb q (minvaf o)) eqn:E; [discriminate|]. intros _.
    apply Qltb_ge in E. destruct (Qltb q (minvaf o')) eqn:E'; [|reflexivity].
    apply Qltb_lt in E'. exfalso. apply (Qlt_not_le _ _ E').
    eapply Qle_trans; eauto. }
  destruct (call_getitem sgenot (DEPTH_KEY o)) as [v|e]; [|discriminate].
  cbn [bind].
  destruct v as [|n|l|t];
    (destruct (_ <- call_getitem sgenot (VAF_KEY o) ;; _) as [a|e];
     [cbn [bind] | discriminate]);
    try (destruct (py_sum _) as [total|e]; [cbn [bind] | discriminate]);
    (destruct (true_div _ _) as [q|e]; [cbn [bind]; apply Hlt | discriminate]).
Qed.

(** X3. Relaxing the thresholds (lower minimum depth and minimum VAF,
    higher population and cohort ceilings, same layout) keeps a PASS a
    PASS, with the same containers. *)
Theorem qc_filter_relaxed (o o' : options) (vcf_rec : vcf_record) (sgenot : call)
    (effects effects' : list string) (records records' : list (option vcf_record)) :
  relaxed o o' ->
  qc_filter o vcf_rec sgenot effects records = Ok (true, effects', records') ->
  qc_filter o' vcf_rec sgenot effects records = Ok (true, effects', records').
Proof.
  intros [Hfmt [Hd [Hv [Hp Hc]]]] H.
  destruct (qc_filter_shape _ _ _ _ _ _ _ _ H)
    as [[_ [Hf _]]|[[_ [_ [Hf _]]]|[Had [Hdepth [-> [-> [[q Hq] Hrest]]]]]]];
    try discriminate.
  destruct (Hrest eq_refl) as [Hvaf [Hpop Hcoh]].
  assert (Had' : check_ad o' sgenot = true).
  { unfold check_ad, DEPTH_KEY in *. now rewrite Hfmt. }
  assert (Hq' : logged_vaf o' sgenot = Ok q).
  { unfold logged_vaf, alt_support, DEPTH_KEY, VAF_KEY in *. now rewrite Hfmt. }
  assert (Hpop' : popfreq_gate o' vcf_rec = Ok true).
  { unfold popfreq_gate in *. bind_inv Hpop. bind_inv Hpop.
    rewrite E. cbn [bind]. rewrite E0. cbn [bind].
    inversion Hpop as [Hle]. rewrite Hle. f_equal.
    apply Qle_bool_iff. apply Qle_bool_iff in Hle. eapply Qle_trans; eauto. }
  assert (Hcoh' : cohfreq_gate o' vcf_rec = Ok true).
  { unfold cohfreq_gate in *. bind_inv Hcoh. bind_inv Hcoh.
    rewrite E. cbn [bind]. rewrite E0. cbn [bind].
    inversion Hcoh as [Hle]. rewrite Hle. f_equal.
    destruct a0 as [|m|t]; cbn [le_float] in *; auto.
    apply Qle_bool_iff. apply Qle_bool_iff in Hle. eapply Qle_trans; eauto. }
  unfold qc_filter.
  rewrite Had', (check_depth_relaxed o o' sgenot Hfmt Hd Hdepth). cbn [bind].
  rewrite Hq'. cbn [bind].
  rewrite (check_vaf_relaxed o o' sgenot Hfmt Hv Hvaf). cbn [bind].
  rewrite Hpop'. cbn [bind]. rewrite Hcoh'. reflexivity.
Qed.

(** * Further properties of the resolver and of the calls *)

(** X4. The severity of the resolved effect does not depend on the order
    (or repetition) of the annotations: two records whose ANN lists have
    the same members resolve to terms of equal severity. *)
Theorem find_effects_order_independent (o : options) (vcf_rec vcf_rec' : vcf_record)
    (sample_gt : option string) (cache c1 c2 : transcripts)
    (preds preds' : list string) (r r' : string) :
  lookup "ANN" (INFO vcf_rec) = Some (InfoStrs preds) ->
  lookup "ANN" (INFO vcf_rec') = Some (InfoStrs preds') ->
  (forall p, In p preds <-> In p preds') ->
  find_effects o vcf_rec sample_gt cache = Ok (r, c1) ->
  find_effects o vcf_rec' sample_gt cache = Ok (r', c2) ->
  exists v v', severity r = Ok v /\ severity r' = Ok v' /\ (v == v')%Q.
Proof.
  intros Hann Hann' Hsame H H'. unfold find_effects in H, H'.
  rewrite Hann in H. rewrite Hann' in H'.
  destruct (scan_annotations_spec _ _ _ _ _ _ _ _ severity_None H)
    as [v [Hr [Hle [_ [Hall Hor]]]]].
  destruct (scan_annotations_spec _ _ _ _ _ _ _ _ severity_None H')
    as [v' [Hr' [Hle' [_ [Hall' Hor']]]]].
  exists v, v'. split; [assumption|]. split; [assumption|].
  apply Qle_antisym.
  - destruct Hor as [->|[p [Hin [Hu [Hc _]]]]].
    + rewrite severity_None in Hr. inversion Hr. subst v. assumption.
    + apply (Hall' p r v); auto. now apply Hsame.
  - destruct Hor' as [->|[p [Hin [Hu [Hc _]]]]].
    + rewrite severity_None in Hr'. inversion Hr'. subst v'. assumption.
    + apply (Hall p r' v'); auto. now apply Hsame.
Qed.

Lemma distinct_NoDup (l : list string) : distinct l = true -> NoDup l.
Proof.
  induction l as [|x l IH]; simpl; [constructor|].
  intros H. apply andb_true_iff in H. destruct H as [Hx Hl].
  constructor; [|auto]. intros Hin. apply str_in_In in Hin.
  rewrite Hin in Hx. discriminate.
Qed.

Lemma lookup_NoDup {V : Type} (d : list (string * V)) :
  NoDup (map fst d) -> forall k v, In (k, v) d -> lookup k d = Some v.
Proof.
  induction d as [|[k' v'] d IH]; intros Hnd k v Hin; [destruct Hin|].
  rewrite lookup_cons. inversion Hnd as [|? ? Hk' Hd]. subst.
  destruct Hin as [Heq|Hin].
  - inversion Heq. now rewrite String.eqb_refl.
  - destruct (String.eqb_spec k k') as [->|_]; [|auto].
    exfalso. apply Hk'. apply in_map_iff. now exists (k', v).
Qed.

Lemma vocabulary_In_lookup (e : string) (v : Q) :
  In (e, v) vocabulary -> lookup e vocabulary = Some v.
Proof.
  apply lookup_NoDup. apply distinct_NoDup. vm_compute. reflexivity.
Qed.

Lemma effectvalues_Ok_known (effects : list string) (vs : list Q) :
  effectvalues effects = Ok vs -> Forall known effects.
Proof.
  revert vs. induction effects as [|e effects IH]; intros vs H; [constructor|].
  cbn [effectvalues] in H. bind_inv H. bind_inv H. constructor.
  - eapply severity_known; eauto.
  - eapply IH; eauto.
Qed.

Lemma count_selected_pos (o : options) (effects : list string) (e : string) :
  In e effects -> str_in e (toselect o) = true -> 0 < count_selected o effects.
Proof.
  intros Hin Hsel. unfold count_selected.
  assert (H : In e (filter (fun eff => str_in eff (toselect o)) effects))
    by (apply filter_In; auto).
  destruct (filter _ effects); [destruct H | simpl; lia].
Qed.

Lemma count_selected_In (o : options) (effects : list string) :
  0 < count_selected o effects ->
  exists e, In e effects /\ str_in e (toselect o) = true.
Proof.
  unfold count_selected. intros H.
  destruct (filter (fun eff => str_in eff (toselect o)) effects) as [|e l] eqn:E;
    [simpl in H; lia|].
  assert (Hin : In e (e :: l)) by now left.
  rewrite <- E in Hin. apply filter_In in Hin. eauto.
Qed.

Lemma count_selected_bounds (o : options) (effects : list string) :
  0 <= count_selected o effects <= Z.of_nat (length effects).
Proof.
  unfold count_selected. split; [lia|]. apply inj_le. apply filter_length_le.
Qed.

(** The worst effect is reportable as soon as some entry is. *)
Lemma worst_effect_selected (o : options) (effects : list string) (loc : nat)
    (eff e : string) :
  select_maximum_effect effects = Ok loc -> item effects loc = Ok eff ->
  In e effects -> str_in e (toselect o) = true ->
  str_in eff (toselect o) = true.
Proof.
  intros Hloc Heff Hin Hsel.
  assert (Hk : Forall known effects).
  { unfold select_maximum_effect in Hloc. bind_inv Hloc.
    eapply effectvalues_Ok_known; eauto. }
  assert (Hne : effects <> []) by (intros ->; destruct Hin).
  destruct (select_maximum_effect_spec effects Hne Hk)
    as [loc' [eff' [v [Hloc' [Heff' [Hv [Hle _]]]]]]].
  rewrite Hloc in Hloc'. inversion Hloc'. subst loc'.
  apply item_nth_error in Heff. rewrite Heff in Heff'. inversion Heff'. subst eff'.
  apply str_in_In in Hsel. apply toselect_spec in Hsel.
  destruct Hsel as [w [Hw Hmin]]. apply vocabulary_In_lookup in Hw.
  destruct (In_nth_error _ _ Hin) as [j Hj].
  assert (Hwv : (w <= v)%Q) by (apply (Hle j e w Hj); now apply severity_lookup).
  apply str_in_In. apply toselect_spec. exists v. split.
  - apply lookup_In. now apply severity_lookup.
  - eapply Qle_trans; eauto.
Qed.

(** X5. The count and the call of a (sample, gene) pair agree: the count
    lies between 0 and the length of the sequence; it is positive exactly
    when the call is the worst effect of the sequence and that effect is
    reportable; and when it is 0 the call is "clean" or "None" and nothing
    is retained for the chart. *)
Theorem count_agrees_with_call (o : options) (nr : Z) (effects : list string)
    (records : list (option vcf_record)) (c : gene_call) :
  aggregate o nr effects records = Ok c ->
  0 <= cdf_entry c <= Z.of_nat (length effects) /\
  (0 < cdf_entry c <->
   exists loc,
     select_maximum_effect effects = Ok loc /\
     item effects loc = Ok (df_entry c) /\
     str_in (df_entry c) (toselect o) = true) /\
  (cdf_entry c = 0 ->
   (df_entry c = "clean" \/ df_entry c = "None") /\ rdf_entry c = None).
Proof.
  unfold aggregate. destruct effects as [|e0 effects'] eqn:Eeff.
  { intros H. inversion H. cbn [cdf_entry df_entry rdf_entry length Z.of_nat].
    split; [lia|]. split; [|auto]. split; [lia|].
    intros [loc [Hloc _]]. discriminate. }
  rewrite <- Eeff. replace (length effects <=? 0)%nat with false
    by (subst effects; reflexivity).
  intros H. bind_inv H. rename a into loc. bind_inv H. rename a into eff.
  pose proof (count_selected_bounds o effects) as Hb.
  destruct (str_in eff (toselect o)) eqn:Esel.
  - assert (Hpos : 0 < count_selected o effects).
    { apply (count_selected_pos o effects eff); [|assumption].
      apply item_nth_error in E0. eapply nth_error_In; eauto. }
    assert (Hc : cdf_entry c = count_selected o effects /\ df_entry c = eff).
    { destruct (lookup eff mapping); [bind_inv H|]; inversion H; auto. }
    destruct Hc as [Hc Hd]. rewrite Hc, Hd. split; [assumption|]. split.
    + split; [intros _; exists loc; auto | intros _; assumption].
    + intros H0. lia.
  - assert (H0 : count_selected o effects = 0).
    { destruct (Z.eq_dec (count_selected o effects) 0) as [|Hne]; [assumption|].
      destruct (count_selected_In o effects) as [e [Hin He]]; [lia|].
      rewrite (worst_effect_selected o effects loc eff e E E0 Hin He) in Esel.
      discriminate. }
    assert (Hc : cdf_entry c = 0 /\ rdf_entry c = None /\
                 (df_entry c = "clean" \/ df_entry c = "None") ).
    { rewrite <- H0.
      destruct (_ <=? _); inversion H; cbn [cdf_entry df_entry rdf_entry];
        auto. }
    destruct Hc as [Hc [Hr Hd]]. rewrite Hc. split; [lia|]. split.
    + split; [lia|]. intros [loc' [Hloc' [Hit Hs]]].
      rewrite E in Hloc'. inversion Hloc'. subst loc'.
      rewrite E0 in Hit. inversion Hit. congruence.
    + auto.
Qed.

(** * Further properties of the scan of a gene *)

Lemma Forall2_nth_error {A B : Type} (P : A -> B -> Prop) (l1 : list A) (l2 : list B) :
  Forall2 P l1 l2 ->
  forall i a b, nth_error l1 i = Some a -> nth_error l2 i = Some b -> P a b.
Proof.
  induction 1 as [|x y l1 l2 Hxy _ IH]; intros [|i] a b Ha Hb;
    simpl in Ha, Hb; try discriminate.
  - inversion Ha. inversion Hb. now subst.
  - eapply IH; eauto.
Qed.

Lemma slot_of_incl (o : options) (symbol samplename : string)
    (l l' : list vcf_record) (e : string) (r : option vcf_record) :
  (forall x, In x l -> In x l') ->
  slot_of o symbol samplename l e r -> slot_of o symbol samplename l' e r.
Proof.
  intros Hincl. destruct r as [vcf_rec|]; simpl; [|auto].
  intros [Hin H]. split; auto.
Qed.

Lemma scan_sample_paired (o : options) (symbol : string) (all : list vcf_record)
    (vcf_rec : vcf_record) (samplename : string)
    (effects effects' : list string) (records records' : list (option vcf_record))
    (cache cache' : transcripts) :
  In vcf_rec all -> annotated symbol vcf_rec = true ->
  paired o symbol all (samplename, (effects, records)) ->
  scan_sample o vcf_rec samplename effects records cache
  = Ok (effects', records', cache') ->
  paired o symbol all (samplename, (effects', records')).
Proof.
  unfold paired. cbn [fst snd]. intros Hin Hann Hp H.
  destruct (scan_sample_cases _ _ _ _ _ _ _ _ _ H)
    as [sg [PASS [e1 [r1 [Hg [Hqc Hrest]]]]]].
  assert (H1 : Forall2 (slot_of o symbol samplename all) e1 r1).
  { destruct (qc_filter_shape _ _ _ _ _ _ _ _ Hqc)
      as [[_ [_ [-> ->]]]|[[_ [_ [_ [-> ->]]]]|[_ [_ [-> [-> _]]]]]]; auto.
    apply Forall2_app; [assumption|]. constructor; [reflexivity | constructor]. }
  destruct PASS.
  - destruct Hrest as [gt [eff [Hgt [Heff [-> ->]]]]].
    apply Forall2_app; [assumption|]. constructor; [|constructor].
    simpl. split; [assumption|]. split; [assumption|].
    destruct (qc_filter_shape _ _ _ _ _ _ _ _ Hqc)
      as [[_ [Hf _]]|[[_ [_ [Hf _]]]|[_ [_ [_ [_ [[q Hq] _]]]]]]];
      try discriminate.
    exists sg, gt, cache, cache', q. auto.
  - destruct Hrest as [-> [-> _]]. assumption.
Qed.

Lemma scan_samples_paired (o : options) (symbol : string) (all : list vcf_record)
    (vcf_rec : vcf_record) (conts : containers) :
  forall cache conts' cache',
    In vcf_rec all -> annotated symbol vcf_rec = true ->
    Forall (paired o symbol all) conts ->
    scan_samples o vcf_rec conts cache = Ok (conts', cache') ->
    Forall (paired o symbol all) conts' /\ map fst conts' = map fst conts.
Proof.
  induction conts as [|[samplename [effects records]] conts IH];
    intros cache conts' cache' Hin Hann Hp H.
  - inversion H. split; [constructor | reflexivity].
  - cbn [scan_samples] in H. bind_inv H. destruct a as [[e1 r1] c1].
    bind_inv H. destruct a as [conts1 c2]. inversion H. subst.
    inversion Hp as [|? ? Hhead Htail]. subst.
    destruct (IH _ _ _ Hin Hann Htail E0) as [IH1 IH2]. split.
    + constructor; [eapply scan_sample_paired; eauto | assumption].
    + simpl. now rewrite IH2.
Qed.

Lemma gencheck_annotated (symbol : string) (vcf_rec : vcf_record) (ann : info_value) :
  lookup "ANN" (INFO vcf_rec) = Some ann -> gencheck symbol ann = Ok true ->
  annotated symbol vcf_rec = true.
Proof.
  intros Hann H. unfold annotated. rewrite Hann.
  destruct ann as [[|x l]|anns]; inversion H; reflexivity.
Qed.

Lemma scan_records_paired (o : options) (symbol : string) (all : list vcf_record)
    (vcf_records : list vcf_record) :
  forall nr conts cache nr' conts' cache',
    (forall x, In x vcf_records -> In x all) ->
    Forall (paired o symbol all) conts ->
    scan_records o symbol vcf_records nr conts cache = Ok (nr', conts', cache') ->
    Forall (paired o symbol all) conts' /\ map fst conts' = map fst conts.
Proof.
  induction vcf_records as [|vcf_rec vcf_records IH];
    intros nr conts cache nr' conts' cache' Hincl Hp H.
  - inversion H. subst. auto.
  - cbn [scan_records] in H.
    assert (Hincl' : forall x, In x vcf_records -> In x all)
      by (intros x Hx; apply Hincl; now right).
    destruct (lookup "ANN" (INFO vcf_rec)) as [ann|] eqn:Eann; [|eapply IH; eauto].
    bind_inv H. destruct a; [|eapply IH; eauto].
    bind_inv H. destruct a as [conts1 cache1].
    destruct (scan_samples_paired o symbol all vcf_rec conts cache conts1 cache1)
      as [Hp1 Hk1]; auto.
    { apply Hincl. now left. }
    { eapply gencheck_annotated; eauto. }
    destruct (IH _ _ _ _ _ _ Hincl' Hp1 H) as [Hp2 Hk2].
    split; [assumption | congruence].
Qed.

Lemma prep_containers_paired (o : options) (symbol : string) (all : list vcf_record)
    (samplenames : list string) :
  Forall (paired o symbol all) (prep_containers samplenames).
Proof.
  unfold prep_containers. apply Forall_forall. intros c Hc.
  apply in_map_iff in Hc. destruct Hc as [samplename [<- _]]. constructor.
Qed.

Lemma aggregate_samples_names (o : options) (nr : Z) (conts : containers) :
  forall calls, aggregate_samples o nr conts = Ok calls ->
                map fst calls = map fst conts.
Proof.
  induction conts as [|[s [e r]] conts IH]; intros calls H.
  - inversion H. reflexivity.
  - cbn [aggregate_samples] in H. bind_inv H. bind_inv H. inversion H.
    simpl. f_equal. now apply IH.
Qed.

Lemma gene_overview_names (o : options) (symbol : string)
    (vcf_records : list vcf_record) (samplenames : list string)
    (cache cache' : transcripts) (calls : list (string * gene_call)) :
  gene_overview o symbol vcf_records samplenames cache = Ok (calls, cache') ->
  map fst calls = samplenames.
Proof.
  unfold gene_overview. intros H. bind_inv H. destruct a as [[nr conts] cache1].
  bind_inv H. inversion H. subst. clear H.
  destruct (scan_records_paired o symbol vcf_records vcf_records _ _ _ _ _ _
              (fun x Hx => Hx) (prep_containers_paired o symbol vcf_records samplenames) E)
    as [_ Hk].
  rewrite (aggregate_samples_names _ _ _ _ E0), Hk. unfold prep_containers.
  rewrite map_map. simpl. apply map_id.
Qed.

(** X6. What [gene_overview] retains for the chart is never the null
    placeholder: it is one of the fetched records, annotated for the gene,
    and the retained effect is the call, has a MAF name, and is what the
    resolver returned for that record and the sample's called allele.  The
    calls come one per sample, in the order of the samples. *)
Theorem retained_record_resolved (o : options) (symbol : string)
    (vcf_records : list vcf_record) (samplenames : list string)
    (cache cache' : transcripts) (calls : list (string * gene_call)) :
  gene_overview o symbol vcf_records samplenames cache = Ok (calls, cache') ->
  map fst calls = samplenames /\
  forall samplename c thisrec eff,
    In (samplename, c) calls -> rdf_entry c = Some (thisrec, eff) ->
    df_entry c = eff /\ (exists name, lookup eff mapping = Some name) /\
    exists vcf_rec, thisrec = Some vcf_rec /\
                    slot_of o symbol samplename vcf_records eff thisrec.
Proof.
  intros H0. split; [eapply gene_overview_names; eauto|]. revert H0.
  unfold gene_overview. intros H. bind_inv H. destruct a as [[nr conts] cache1].
  bind_inv H. inversion H. subst. clear H.
  destruct (scan_records_paired o symbol vcf_records vcf_records _ _ _ _ _ _
              (fun x Hx => Hx) (prep_containers_paired o symbol vcf_records samplenames) E)
    as [Hp Hk].
  - intros samplename c thisrec eff Hin Hrdf.
    destruct (aggregate_samples_In _ _ _ _ _ _ E0 Hin) as [effects [records [Hc Ha]]].
    rewrite Forall_forall in Hp. specialize (Hp _ Hc). unfold paired in Hp.
    cbn [fst snd] in Hp.
    unfold aggregate in Ha. destruct (length effects <=? 0)%nat.
    { inversion Ha. subst c. discriminate. }
    bind_inv Ha. rename a into loc. bind_inv Ha. rename a into eff'.
    destruct (str_in eff' (toselect o)).
    2:{ destruct (_ <=? _); inversion Ha; subst c; discriminate. }
    destruct (lookup eff' mapping) as [name|] eqn:Emap.
    2:{ inversion Ha. subst c. discriminate. }
    bind_inv Ha. inversion Ha. subst c. cbn in Hrdf. inversion Hrdf. subst.
    cbn [df_entry]. split; [reflexivity|]. split; [eauto|].
    apply item_nth_error in E2, E3.
    pose proof (Forall2_nth_error _ _ _ Hp _ _ _ E2 E3) as Hslot.
    destruct thisrec as [vcf_rec|]; [eauto|].
    simpl in Hslot. subst eff. discriminate.
Qed.

(** * Further properties of the called allele *)

Lemma py_index_last {A : Type} (l : list A) (x : A) :
  py_index (l ++ [x]) (-1) = Ok x.
Proof.
  unfold py_index. rewrite length_app. cbn [length].
  replace (0 <=? -1) with false by reflexivity. cbn [andb].
  replace (-1 <? 0) with true by reflexivity.
  destruct (Z.leb_spec 0 (Z.of_nat (length l + 1) + -1)); [|lia]. cbn [andb].
  replace (Z.to_nat (Z.of_nat (length l + 1) + -1)) with (length l) by lia.
  unfold item. rewrite nth_error_app2 by lia. now rewrite Nat.sub_diag.
Qed.

(** X8. For a genotype of two one-digit allele indices [a] and [b]: written
    with a slash, the called allele is [ALT[b-1]]; written with a bar
    (phased), the bar is dropped and the two digits are read as one number,
    so the called allele is [ALT[10a+b-1]]. *)
Theorem called_allele_of_genotype (vcf_rec : vcf_record) (sgenot : call) (a b : nat) :
  (a < 10)%nat -> (b < 10)%nat ->
  (lookup "GT" sgenot = Some (GStr (gt_text a "/" b)) ->
   called_allele vcf_rec sgenot = py_index (ALT vcf_rec) (Z.of_nat b - 1)) /\
  (lookup "GT" sgenot = Some (GStr (gt_text a "|" b)) ->
   called_allele vcf_rec sgenot
   = py_index (ALT vcf_rec) (10 * Z.of_nat a + Z.of_nat b - 1)).
Proof.
  intros Ha Hb. unfold called_allele, call_getitem.
  split; intros ->; cbn [bind split_gt];
    do 10 (destruct a as [|a]; [
      do 10 (destruct b as [|b]; [reflexivity|]); lia |]); lia.
Qed.

(** X9. A genotype whose second index is 0 (no alternate allele called)
    that reaches the resolver is resolved against the last alternate allele
    of the record: the index -1 counts from the end. *)
Theorem reference_call_takes_last_ALT (vcf_rec : vcf_record) (sgenot : call)
    (a : nat) (alts : list (option string)) (x : option string) :
  (a < 10)%nat ->
  lookup "GT" sgenot = Some (GStr (gt_text a "/" 0)) ->
  ALT vcf_rec = alts ++ [x] ->
  called_allele vcf_rec sgenot = Ok x.
Proof.
  intros Ha Hgt Halt. unfold called_allele, call_getitem.
  rewrite Hgt, Halt. cbn [bind split_gt].
  do 10 (destruct a as [|a]; [apply py_index_last|]). lia.
Qed.

(** * Properties of the code around the core *)

(** X11. [get_canonical] on an answer: the id of the first transcript
    flagged canonical; without any, the id of the first transcript; an
    answer without transcripts raises [IndexError]. *)
Theorem canonical_of_answer_spec (entries : list transcript_entry) :
  (entries = [] -> canonical_of_answer entries = Raise IndexError) /\
  (forall before t after,
     entries = before ++ t :: after ->
     Forall not_canonical before -> entry_is_canonical t = 1 ->
     canonical_of_answer entries = Ok (entry_id t)) /\
  (forall t rest,
     entries = t :: rest -> Forall not_canonical entries ->
     canonical_of_answer entries = Ok (entry_id t)).
Proof.
  split; [intros ->; reflexivity|]. split.
  - intros before t after -> Hb Ht. unfold canonical_of_answer.
    assert (H : first_canonical (before ++ t :: after) = Some (entry_id t)).
    { induction Hb as [|x before Hx _ IH]; simpl.
      - apply Z.eqb_eq in Ht. now rewrite Ht.
      - apply Z.eqb_neq in Hx. now rewrite Hx. }
    now rewrite H.
  - intros t rest -> Hall. unfold canonical_of_answer.
    assert (H : forall l, Forall not_canonical l -> first_canonical l = None).
    { induction 1 as [|x l Hx _ IH]; simpl; [reflexivity|].
      apply Z.eqb_neq in Hx. now rewrite Hx. }
    now rewrite (H _ Hall).
Qed.

Lemma name_samples_GATK (o : options) (all : list string) (todo : list string) :
  format o = "GATK" ->
  forall i, name_samples o all i todo = Ok (map Some todo).
Proof.
  intros Hf. induction todo as [|s todo IH]; intros i; [reflexivity|].
  cbn [name_samples]. rewrite Hf. cbn [String.eqb Ascii.eqb Bool.eqb bind].
  rewrite IH. reflexivity.
Qed.

Lemma name_samples_other (o : options) (all : list string) (todo : list string) :
  format o <> "GATK" -> format o <> "FREEB" ->
  forall i, name_samples o all i todo = Ok (map (fun _ => None) todo).
Proof.
  intros Hg Hf. apply String.eqb_neq in Hg, Hf.
  induction todo as [|s todo IH]; intros i; [reflexivity|].
  cbn [name_samples]. rewrite Hg, Hf. cbn [bind]. rewrite IH. reflexivity.
Qed.

Lemma name_samples_FREEB (o : options) (todo : list string) :
  format o = "FREEB" -> todo <> [] ->
  forall done,
    name_samples o (done ++ todo) (length done) todo = Raise IndexError.
Proof.
  intros Hf. induction todo as [|s todo IH]; intros Hne done; [congruence|].
  cbn [name_samples]. rewrite Hf. cbn [String.eqb Ascii.eqb Bool.eqb].
  unfold item at 1. rewrite nth_error_app2 by lia.
  replace (length done + 1 - length done)%nat with 1%nat by lia.
  destruct todo as [|s' todo]; [reflexivity|]. cbn [nth_error bind].
  replace (done ++ s :: s' :: todo) with ((done ++ [s]) ++ s' :: todo)
    by (rewrite <- app_assoc; reflexivity).
  replace (S (length done)) with (length (done ++ [s]))
    by (rewrite length_app; simpl; lia).
  rewrite IH by discriminate. reflexivity.
Qed.

(** X12. The keys the sample loop enters: with format "GATK" the sample
    names of the file; with format "FREEB" the loop raises [IndexError] on
    every file that has a sample, since it reads the name after the last
    one; with any other format every sample is entered under [False]. *)
Theorem sample_keys_spec (o : options) (vcf_samples : list string) :
  (format o = "GATK" -> sample_keys o vcf_samples = Ok (map Some vcf_samples)) /\
  (format o = "FREEB" -> vcf_samples <> [] ->
   sample_keys o vcf_samples = Raise IndexError) /\
  (format o <> "GATK" -> format o <> "FREEB" ->
   sample_keys o vcf_samples = Ok (map (fun _ => None) vcf_samples)).
Proof.
  unfold sample_keys. split; [|split].
  - intros Hf. now apply name_samples_GATK.
  - intros Hf Hne. apply (name_samples_FREEB o vcf_samples Hf Hne []).
  - intros Hg Hf. now apply name_samples_other.
Qed.

(** * The scan under the key [False] *)

Lemma scan_key_named (o : options) (vcf_rec : vcf_record) (samplename : string)
    (effects : list string) (records : list (option vcf_record))
    (cache : transcripts) :
  scan_key o vcf_rec (Some samplename) effects records cache
  = scan_sample o vcf_rec samplename effects records cache.
Proof. reflexivity. Qed.

(** On keys that are sample names the scan is the scan by sample name. *)
Lemma scan_keys_named (o : options) (vcf_rec : vcf_record) (conts : containers) :
  forall cache,
    scan_keys o vcf_rec (map (fun c => (Some (fst c), snd c)) conts) cache
    = match scan_samples o vcf_rec conts cache with
      | Ok (conts', cache') => Ok (map (fun c => (Some (fst c), snd c)) conts', cache')
      | Raise e => Raise e
      end.
Proof.
  induction conts as [|[s [e r]] conts IH]; intros cache; [reflexivity|].
  cbn [map fst snd scan_keys scan_samples]. rewrite scan_key_named.
  destruct (scan_sample o vcf_rec s e r cache) as [[[e1 r1] c1]|x]; [|reflexivity].
  cbn [bind]. rewrite IH.
  destruct (scan_samples o vcf_rec conts c1) as [[conts2 c2]|x]; reflexivity.
Qed.

Lemma sample_keys_False (o : options) (vcf_samples : list string)
    (keys : list (option string)) :
  format o <> "GATK" -> format o <> "FREEB" ->
  sample_keys o vcf_samples = Ok keys ->
  forall key, In key keys -> key = None.
Proof.
  intros Hg Hf Hk key Hin. unfold sample_keys in Hk.
  rewrite (name_samples_other o vcf_samples vcf_samples Hg Hf) in Hk.
  inversion Hk. subst keys. apply in_map_iff in Hin.
  destruct Hin as [x [Hx _]]. now symmetry.
Qed.

(** X7. A format other than "GATK" and "FREEB" leaves [False] as the only
    key of the tables. The scan of a gene then skips the records that have
    no annotation for the gene, and at the first record that has one it
    raises [KeyError]: [False] is no sample of the record, and the handler
    around the lookup of the genotype is for [AttributeError]. *)
Theorem unsupported_format_raises (o : options) (vcf_samples : list string)
    (keys : list (option string)) (symbol : string)
    (skipped rest : list vcf_record) (vcf_rec : vcf_record) (ann : info_value)
    (conts : key_containers) (cache : transcripts) (n : Z) :
  format o <> "GATK" -> format o <> "FREEB" ->
  sample_keys o vcf_samples = Ok keys ->
  conts <> [] ->
  (forall key, In key (map fst conts) -> In key keys) ->
  Forall (fun r => forall a, lookup "ANN" (INFO r) = Some a ->
                             gencheck symbol a = Ok false) skipped ->
  lookup "ANN" (INFO vcf_rec) = Some ann ->
  gencheck symbol ann = Ok true ->
  (forall key, In key keys -> key = None) /\
  scan_records_keys o symbol skipped n conts cache = Ok (n, conts, cache) /\
  scan_records_keys o symbol (skipped ++ vcf_rec :: rest) n conts cache
  = Raise KeyError.
Proof.
  intros Hg Hf Hk Hne Hkeys Hskip Hann Hgc.
  pose proof (sample_keys_False o vcf_samples keys Hg Hf Hk) as HFalse.
  split; [exact HFalse|].
  assert (Hhit : scan_records_keys o symbol (vcf_rec :: rest) n conts cache
                 = Raise KeyError).
  { cbn [scan_records_keys]. rewrite Hann, Hgc. cbn [bind].
    destruct conts as [|[key [e r]] conts]; [congruence|].
    assert (Hkey : key = None) by (apply HFalse, Hkeys; now left).
    subst key. reflexivity. }
  induction Hskip as [|r skipped Hr Hskip IH]; [split; [reflexivity | exact Hhit]|].
  cbn [app scan_records_keys].
  destruct (lookup "ANN" (INFO r)) as [a|]; [|exact IH].
  rewrite (Hr a eq_refl). exact IH.
Qed.

Lemma first_seen_NoDup (l : list string) :
  forall seen, NoDup seen -> NoDup (seen ++ first_seen seen l).
Proof.
  induction l as [|x l IH]; intros seen Hnd; simpl.
  - now rewrite app_nil_r.
  - destruct (str_in x seen) eqn:E; [auto|].
    replace (seen ++ x :: first_seen (seen ++ [x]) l)
      with ((seen ++ [x]) ++ first_seen (seen ++ [x]) l)
      by (rewrite <- app_assoc; reflexivity).
    apply IH. apply NoDup_app; [assumption | repeat constructor; intros [] |].
    intros y Hy [<-|[]]. apply str_in_In in Hy. congruence.
Qed.

Lemma read_genelist_spec (lines : list string) :
  forall genelist collection genelist' collection',
    read_genelist lines genelist collection = Ok (genelist', collection') ->
    Forall2 (fun s g => get_geneinfo s = Ok g) collection genelist ->
    exists symbols,
      Forall2 (fun line s => genesymbol_of line = Ok s) lines symbols /\
      collection' = collection ++ first_seen collection symbols /\
      Forall2 (fun s g => get_geneinfo s = Ok g) collection' genelist'.
Proof.
  induction lines as [|line lines IH];
    intros genelist collection genelist' collection' H Hgi.
  - inversion H. subst. exists []. rewrite app_nil_r. auto.
  - cbn [read_genelist] in H. bind_inv H. rename a into s.
    destruct (str_in s collection) eqn:Ein; cbn [negb] in H.
    + destruct (IH _ _ _ _ H Hgi) as [symbols [Hs [Hc Hg]]].
      exists (s :: symbols). split; [now constructor|].
      simpl. rewrite Ein. auto.
    + bind_inv H. rename a into g.
      destruct (IH _ _ _ _ H) as [symbols [Hs [Hc Hg]]].
      { apply Forall2_app; [assumption | now repeat constructor]. }
      exists (s :: symbols). split; [now constructor|].
      simpl. rewrite Ein. rewrite <- app_assoc in Hc. auto.
Qed.

Lemma read_genelist_returns (lines : list string) :
  forall symbols genelist collection,
    Forall2 (fun line s => genesymbol_of line = Ok s) lines symbols ->
    (forall s, In s symbols -> exists g, get_geneinfo s = Ok g) ->
    exists genelist',
      read_genelist lines genelist collection
      = Ok (genelist', collection ++ first_seen collection symbols).
Proof.
  induction lines as [|line lines IH]; intros symbols genelist collection Hs Hgi.
  - inversion Hs. subst. simpl. rewrite app_nil_r. eauto.
  - inversion Hs as [|? s ? symbols' Hline Hrest]. subst.
    cbn [read_genelist first_seen]. rewrite Hline. cbn [bind].
    assert (Hgi' : forall s', In s' symbols' -> exists g, get_geneinfo s' = Ok g)
      by (intros s' Hs'; apply Hgi; now right).
    destruct (str_in s collection); cbn [negb].
    + now apply IH.
    + destruct (Hgi s (or_introl eq_refl)) as [g ->]. cbn [bind].
      destruct (IH symbols' (genelist ++ [g]) (collection ++ [s]) Hrest Hgi')
        as [genelist' ->].
      rewrite <- app_assoc. eauto.
Qed.

(** X13. Reading the gene list: when every line has a fourth column and
    every lookup succeeds the loop returns; and what it returns has one
    gene per distinct symbol, looked up once, in the order in which the
    symbols first appear in the file. *)
Theorem read_genelist_first_seen (lines : list string) :
  (forall symbols,
     Forall2 (fun line s => genesymbol_of line = Ok s) lines symbols ->
     (forall s, In s symbols -> exists g, get_geneinfo s = Ok g) ->
     exists genelist,
       read_genelist lines [] [] = Ok (genelist, first_seen [] symbols)) /\
  (forall genelist collection,
     read_genelist lines [] [] = Ok (genelist, collection) ->
     exists symbols,
       Forall2 (fun line s => genesymbol_of line = Ok s) lines symbols /\
       collection = first_seen [] symbols /\ NoDup collection /\
       Forall2 (fun s g => get_geneinfo s = Ok g) collection genelist).
Proof.
  split.
  - intros symbols Hs Hgi.
    destruct (read_genelist_returns lines symbols [] [] Hs Hgi) as [g Hg]. eauto.
  - intros genelist collection H.
    destruct (read_genelist_spec lines [] [] genelist collection H (Forall2_nil _))
      as [symbols [Hs [Hc Hg]]].
    exists symbols. simpl in Hc. repeat split; auto.
    subst collection. apply (first_seen_NoDup symbols []). constructor.
Qed.

(** * Properties of the tables *)

Lemma dict_set_keys {V : Type} (k : string) (v : V) (d : list (string * V)) :
  map fst (dict_set k v d) = keys_with (map fst d) k.
Proof.
  unfold keys_with, str_in. induction d as [|[k' v'] d IH]; [reflexivity|].
  cbn [dict_set map fst existsb].
  destruct (String.eqb k k'); [reflexivity|]. cbn [map fst orb]. rewrite IH.
  now destruct (existsb (String.eqb k) (map fst d)).
Qed.

Lemma lookup_dict_set {V : Type} (k k' : string) (v : V) (d : list (string * V)) :
  lookup k' (dict_set k v d) = if String.eqb k' k then Some v else lookup k' d.
Proof.
  induction d as [|[k0 v0] d IH].
  - cbn [dict_set]. rewrite lookup_cons. now destruct (String.eqb k' k).
  - cbn [dict_set]. destruct (String.eqb_spec k k0) as [->|Hne].
    + rewrite !lookup_cons. now destruct (String.eqb k' k0).
    + rewrite !lookup_cons, IH.
      destruct (String.eqb_spec k' k0) as [->|_]; [|reflexivity].
      apply not_eq_sym in Hne. apply String.eqb_neq in Hne. now rewrite Hne.
Qed.

Lemma assign_calls_spec (symbol : string) (calls : list (string * gene_call)) :
  forall tabs,
    length calls = length tabs ->
    map fst (assign_calls symbol calls tabs) = map fst tabs /\
    forall samplename rows',
      In (samplename, rows') (assign_calls symbol calls tabs) ->
      exists c rows, In (samplename, rows) tabs /\ rows' = assign_call symbol c rows.
Proof.
  induction calls as [|[s c] calls IH]; intros [|[samplename rows] tabs] Hlen;
    try discriminate.
  - split; [reflexivity|]. intros s r [].
  - cbn [assign_calls]. destruct (IH tabs) as [IH1 IH2]; [simpl in Hlen; lia|].
    split; [simpl; now rewrite IH1|].
    intros s' rows' [Heq|Hin].
    + inversion Heq. subst. exists c, rows. split; [now left | reflexivity].
    + destruct (IH2 _ _ Hin) as [c' [r [Hr Hrows]]].
      exists c', r. split; [now right | assumption].
Qed.

Lemma gene_step_columns (o : options) (thisgene : genedef) (tabs tabs' : tables)
    (cache cache' : transcripts) (dk ck : list string) :
  columns dk ck tabs ->
  gene_step o thisgene tabs cache = Ok (tabs', cache') ->
  map fst tabs' = map fst tabs /\
  columns (keys_with dk (SYMBOL thisgene))
          (if fetched thisgene then keys_with ck (SYMBOL thisgene) else ck) tabs'.
Proof.
  intros Hcol. unfold gene_step, fetched.
  destruct (fetch (Chr thisgene) (Start thisgene - 20) (Stop thisgene + 20))
    as [vcf_records|e].
  - intros H. bind_inv H. destruct a as [calls c1]. inversion H. subst.
    pose proof (gene_overview_names _ _ _ _ _ _ _ E) as Hnames.
    destruct (assign_calls_spec (SYMBOL thisgene) calls tabs) as [Hk Hin].
    { rewrite <- (length_map fst calls), Hnames. apply length_map. }
    split; [assumption|]. intros s rows' Hr.
    destruct (Hin s rows' Hr) as [c [rows [Hrows ->]]].
    destruct (Hcol s rows Hrows) as [Hd Hc]. cbn [assign_call df_row cdf_row].
    now rewrite !dict_set_keys, Hd, Hc.
  - destruct e; try discriminate. intros H. inversion H. subst. split.
    + rewrite map_map. reflexivity.
    + intros s rows' Hr. apply in_map_iff in Hr.
      destruct Hr as [[s0 rows] [Heq Hrows]]. inversion Heq. subst.
      destruct (Hcol _ rows Hrows) as [Hd Hc]. cbn [snd mark_None df_row cdf_row].
      now rewrite dict_set_keys, Hd, Hc.
Qed.

Lemma first_seen_step (ks : list string) (k : string) (l : list string) :
  ks ++ first_seen ks (k :: l) = keys_with ks k ++ first_seen (keys_with ks k) l.
Proof.
  unfold keys_with. simpl. destruct (str_in k ks); [reflexivity|].
  now rewrite <- app_assoc.
Qed.

Lemma process_genes_columns (o : options) (genelist : list genedef) :
  forall tabs cache tabs' cache' dk ck,
    columns dk ck tabs ->
    process_genes o genelist tabs cache = Ok (tabs', cache') ->
    map fst tabs' = map fst tabs /\
    columns (dk ++ first_seen dk (map SYMBOL genelist))
            (ck ++ first_seen ck (map SYMBOL (filter fetched genelist))) tabs'.
Proof.
  induction genelist as [|g genelist IH]; intros tabs cache tabs' cache' dk ck Hcol H.
  - inversion H. subst. simpl. rewrite !app_nil_r. auto.
  - cbn [process_genes] in H. bind_inv H. destruct a as [tabs1 cache1].
    destruct (gene_step_columns _ _ _ _ _ _ _ _ Hcol E) as [Hk1 Hcol1].
    destruct (IH _ _ _ _ _ _ Hcol1 H) as [Hk2 Hcol2].
    split; [congruence|]. cbn [map filter]. rewrite first_seen_step.
    destruct (fetched g); [|assumption].
    cbn [map]. now rewrite first_seen_step.
Qed.

Lemma lookup_keys {V : Type} (k : string) (d : list (string * V)) :
  lookup k d <> None <-> In k (map fst d).
Proof.
  induction d as [|[k' v'] d IH]; [simpl; split; [congruence | intros []]|].
  rewrite lookup_cons. cbn [map fst In].
  destruct (String.eqb_spec k k') as [->|Hne].
  - split; [now left | discriminate].
  - rewrite IH. split; [now right | intros [H|H]; congruence].
Qed.

Lemma first_seen_In (l : list string) :
  forall seen x, In x (seen ++ first_seen seen l) <-> In x seen \/ In x l.
Proof.
  induction l as [|y l IH]; intros seen x; cbn [first_seen].
  - rewrite app_nil_r. cbn [In]. split; [now left | intros [H|[]]; exact H].
  - destruct (str_in y seen) eqn:E.
    + rewrite IH. cbn [In]. apply str_in_In in E.
      split; [intros [H|H]; auto | intros [H|[<-|H]]; auto].
    + replace (seen ++ y :: first_seen (seen ++ [y]) l)
        with ((seen ++ [y]) ++ first_seen (seen ++ [y]) l)
        by (rewrite <- app_assoc; reflexivity).
      rewrite IH, in_app_iff. cbn [In].
      split; [intros [[H|[<-|[]]]|H]; auto | intros [H|[<-|H]]; auto].
Qed.

(** X14. After the loop over the genes, started on fresh rows, the sample
    keys are as before and every sample has the same gene keys, each once:
    in [df] the symbols of the gene list, in [cdf] the symbols of the genes
    whose region query did not raise [ValueError].  So the rows of any two
    samples have as many entries, in the overview and in the count
    table. *)
Theorem process_genes_gene_keys (o : options) (genelist : list genedef)
    (samplenames : list string) (cache cache' : transcripts) (tabs' : tables) :
  process_genes o genelist (map (fun s => (s, fresh_rows)) samplenames) cache
  = Ok (tabs', cache') ->
  map fst tabs' = samplenames /\
  (forall samplename rows,
     In (samplename, rows) tabs' ->
     (forall symbol, lookup symbol (df_row rows) <> None <->
                     In symbol (map SYMBOL genelist)) /\
     (forall symbol, lookup symbol (cdf_row rows) <> None <->
                     In symbol (map SYMBOL (filter fetched genelist))) /\
     NoDup (map fst (df_row rows)) /\ NoDup (map fst (cdf_row rows))) /\
  (forall samplename1 rows1 samplename2 rows2,
     In (samplename1, rows1) tabs' -> In (samplename2, rows2) tabs' ->
     length (df_row rows1) = length (df_row rows2) /\
     length (cdf_row rows1) = length (cdf_row rows2)).
Proof.
  intros H.
  assert (Hfresh : columns [] [] (map (fun s => (s, fresh_rows)) samplenames)).
  { intros s rows Hin. apply in_map_iff in Hin. destruct Hin as [s' [Heq _]].
    inversion Heq. auto. }
  destruct (process_genes_columns o genelist _ _ _ _ _ _ Hfresh H) as [Hk Hcol].
  simpl in Hcol. rewrite map_map in Hk. simpl in Hk. rewrite map_id in Hk.
  split; [assumption|]. split.
  - intros s rows Hin. destruct (Hcol _ _ Hin) as [Hd Hc].
    split; [|split; [|split]].
    + intros symbol. rewrite lookup_keys, Hd.
      rewrite (first_seen_In (map SYMBOL genelist) [] symbol). cbn [In].
      split; [intros [[]|Hs]; exact Hs | now right].
    + intros symbol. rewrite lookup_keys, Hc.
      rewrite (first_seen_In (map SYMBOL (filter fetched genelist)) [] symbol).
      cbn [In]. split; [intros [[]|Hs]; exact Hs | now right].
    + rewrite Hd. apply (first_seen_NoDup (map SYMBOL genelist) []). constructor.
    + rewrite Hc.
      apply (first_seen_NoDup (map SYMBOL (filter fetched genelist)) []).
      constructor.
  - intros s1 rows1 s2 rows2 H1 H2.
    destruct (Hcol _ _ H1) as [Hd1 Hc1]. destruct (Hcol _ _ H2) as [Hd2 Hc2].
    rewrite <- (length_map fst (df_row rows1)), <- (length_map fst (df_row rows2)).
    rewrite <- (length_map fst (cdf_row rows1)), <- (length_map fst (cdf_row rows2)).
    now rewrite Hd1, Hd2, Hc1, Hc2.
Qed.

(** X15. A gene whose region query raises [ValueError] is entered as "None"
    in the overview row of every sample; its count entry, the retained
    records and the transcript cache stay as they were, so the count table
    gets no column for a gene that was never fetched. *)
Theorem gene_step_no_records (o : options) (thisgene : genedef) (tabs : tables)
    (cache : transcripts) :
  fetch (Chr thisgene) (Start thisgene - 20) (Stop thisgene + 20)
  = Raise ValueError ->
  exists tabs',
    gene_step o thisgene tabs cache = Ok (tabs', cache) /\
    map fst tabs' = map fst tabs /\
    forall samplename rows',
      In (samplename, rows') tabs' ->
      lookup (SYMBOL thisgene) (df_row rows') = Some "None" /\
      exists rows,
        In (samplename, rows) tabs /\
        cdf_row rows' = cdf_row rows /\ rdf_row rows' = rdf_row rows /\
        forall symbol, symbol <> SYMBOL thisgene ->
                       lookup symbol (df_row rows') = lookup symbol (df_row rows).
Proof.
  intros Hf. unfold gene_step. rewrite Hf. eexists. split; [reflexivity|].
  split; [rewrite map_map; reflexivity|].
  intros s rows' Hin. apply in_map_iff in Hin.
  destruct Hin as [[s0 rows] [Heq Hrows]]. inversion Heq. subst.
  cbn [snd mark_None df_row cdf_row rdf_row]. split.
  - now rewrite lookup_dict_set, String.eqb_refl.
  - exists rows. repeat split; auto. intros symbol Hne.
    rewrite lookup_dict_set. apply String.eqb_neq in Hne. now rewrite Hne.
Qed.

(** * Properties of the cohort gate, the containers and the chart *)

(** [a <= b] between entries that are numbers or nulls. *)
Lemma lt_nullable_false (a b : option Q) :
  lt_nullable a b = false <->
  match b, a with
  | None, _ => True
  | Some _, None => False
  | Some y, Some x => (y <= x)%Q
  end.
Proof.
  destruct a as [x|], b as [y|]; simpl.
  - apply Qltb_ge.
  - split; auto.
  - split; [discriminate | intros []].
  - split; auto.
Qed.

Lemma max_nullable_spec (l : list (option Q)) :
  forall m,
    In (max_nullable m l) (m :: l) /\
    forall x, In x (m :: l) -> lt_nullable (max_nullable m l) x = false.
Proof.
  assert (Hrefl : forall a, lt_nullable a a = false).
  { intros [x|]; [|reflexivity]. apply Qltb_ge. apply Qle_refl. }
  assert (Htrans : forall a b c, lt_nullable b a = false -> lt_nullable c b = false ->
                                 lt_nullable c a = false).
  { intros a b c. rewrite !lt_nullable_false.
    destruct a as [x|], b as [y|], c as [z|]; intros H1 H2;
      try exact I; try contradiction.
    eapply Qle_trans; eauto. }
  induction l as [|y l IH]; intros m; cbn [max_nullable].
  - split; [now left|]. intros x [<-|[]]. apply Hrefl.
  - destruct (IH (if lt_nullable m y then y else m)) as [Hin Hle].
    assert (Hm : lt_nullable (if lt_nullable m y then y else m) m = false /\
                 lt_nullable (if lt_nullable m y then y else m) y = false).
    { destruct (lt_nullable m y) eqn:E; (split; [|auto]); auto.
      apply lt_nullable_false. destruct m as [a|], y as [b|]; simpl in *;
        try discriminate; auto. apply Qlt_le_weak. now apply Qltb_lt. }
    split.
    + destruct Hin as [Hin|Hin]; [|now right; right].
      rewrite <- Hin. destruct (lt_nullable m y); [right; now left | now left].
    + intros x [<-|[<-|Hx]].
      * eapply Htrans; [apply Hm | apply Hle; now left].
      * eapply Htrans; [apply Hm | apply Hle; now left].
      * apply Hle. now right.
Qed.

(** X16. The cohort gate on a record that has "MLEAF": an empty list raises
    [ValueError]; on a non-empty list of numbers and nulls it returns, and
    passes exactly when every number of the list is at most the threshold
    (a null compares below every number, so it takes no part, and a list
    of nulls passes); on a non-empty list of texts it fails, a text being
    above every number. *)
Theorem cohfreq_gate_spec (o : options) (vcf_rec : vcf_record) :
  (forall l,
     lookup "MLEAF" (INFO vcf_rec) = Some (InfoNums l) ->
     (l = [] -> cohfreq_gate o vcf_rec = Raise ValueError) /\
     (l <> [] ->
      exists b, cohfreq_gate o vcf_rec = Ok b /\
                (b = true <-> forall x, In (Some x) l -> (x <= cohfreq o)%Q))) /\
  (forall l,
     lookup "MLEAF" (INFO vcf_rec) = Some (InfoStrs l) ->
     (l = [] -> cohfreq_gate o vcf_rec = Raise ValueError) /\
     (l <> [] -> cohfreq_gate o vcf_rec = Ok false)).
Proof.
  unfold cohfreq_gate, getitem. split; intros l Hm; rewrite Hm; cbn [bind].
  - split; [intros ->; reflexivity|]. intros Hne.
    destruct l as [|y l]; [congruence|]. cbn [max_number bind].
    eexists. split; [reflexivity|].
    destruct (max_nullable_spec l y) as [Hin Hle].
    destruct (max_nullable y l) as [q|]; cbn [le_float].
    + rewrite Qle_bool_iff. split.
      * intros Hq x Hx. specialize (Hle _ Hx). apply lt_nullable_false in Hle.
        eapply Qle_trans; eauto.
      * intros Hall. now apply Hall.
    + split; [|reflexivity]. intros _ x Hx. specialize (Hle _ Hx).
      apply lt_nullable_false in Hle. destruct Hle.
  - split; [intros ->; reflexivity|]. intros Hne.
    destruct l as [|y l]; [congruence | reflexivity].
Qed.

Lemma markers_app (r1 r2 : list (option vcf_record)) :
  markers (r1 ++ r2) = (markers r1 + markers r2)%nat.
Proof. unfold markers. now rewrite filter_app, length_app. Qed.

Lemma resolved_app (r1 r2 : list (option vcf_record)) :
  resolved (r1 ++ r2) = (resolved r1 + resolved r2)%nat.
Proof. unfold resolved. now rewrite filter_app, length_app. Qed.

Lemma scan_sample_bounded (o : options) (vcf_rec : vcf_record) (samplename : string)
    (effects effects' : list string) (records records' : list (option vcf_record))
    (cache cache' : transcripts) (n : Z) :
  bounded n (samplename, (effects, records)) ->
  scan_sample o vcf_rec samplename effects records cache
  = Ok (effects', records', cache') ->
  bounded (n + 1) (samplename, (effects', records')).
Proof.
  unfold bounded. cbn [fst snd]. intros [Hm [Hr Hlen]] H.
  destruct (scan_sample_cases _ _ _ _ _ _ _ _ _ H)
    as [sg [PASS [e1 [r1 [_ [Hqc Hrest]]]]]].
  destruct (qc_filter_shape _ _ _ _ _ _ _ _ Hqc)
    as [[_ [-> [-> ->]]]|[[_ [_ [-> [-> ->]]]]|[_ [_ [-> [-> _]]]]]].
  - destruct Hrest as [-> [-> _]]. repeat split; auto; lia.
  - destruct Hrest as [-> [-> _]]. repeat split; auto; lia.
  - destruct PASS.
    + destruct Hrest as [gt [eff [_ [_ [-> ->]]]]].
      rewrite !markers_app, !resolved_app, !length_app. cbn. lia.
    + destruct Hrest as [-> [-> _]].
      rewrite !markers_app, !resolved_app, !length_app. cbn. lia.
Qed.

Lemma scan_samples_bounded (o : options) (vcf_rec : vcf_record) (n : Z)
    (conts : containers) :
  forall cache conts' cache',
    Forall (bounded n) conts ->
    scan_samples o vcf_rec conts cache = Ok (conts', cache') ->
    Forall (bounded (n + 1)) conts'.
Proof.
  induction conts as [|[samplename [effects records]] conts IH];
    intros cache conts' cache' Hb H.
  - inversion H. constructor.
  - cbn [scan_samples] in H. bind_inv H. destruct a as [[e1 r1] c1].
    bind_inv H. destruct a as [conts1 c2]. inversion H. subst.
    inversion Hb as [|? ? Hhead Htail]. subst. constructor.
    + eapply scan_sample_bounded; eauto.
    + eapply IH; eauto.
Qed.

(** X17. After the scan of a gene, started on empty containers, every
    sample has at most one marker per counted position, at most one
    resolved effect per marker, and as many effects as record slots; a
    sample with a non-empty sequence means at least one counted position. *)
Theorem scan_records_bounded (o : options) (symbol : string)
    (vcf_records : list vcf_record) (samplenames : list string)
    (cache cache' : transcripts) (nr : Z) (conts : containers) :
  scan_records o symbol vcf_records 0 (prep_containers samplenames) cache
  = Ok (nr, conts, cache') ->
  forall samplename effects records,
    In (samplename, (effects, records)) conts ->
    Z.of_nat (markers records) <= nr /\
    (resolved records <= markers records)%nat /\
    length effects = length records /\
    Z.of_nat (length effects) <= 2 * nr /\
    (effects <> [] -> 1 <= nr).
Proof.
  intros H.
  assert (Hgen : forall recs n conts0 cache0 n' conts0' cache0',
            Forall (bounded n) conts0 ->
            scan_records o symbol recs n conts0 cache0 = Ok (n', conts0', cache0') ->
            Forall (bounded n') conts0').
  { induction recs as [|vcf_rec recs IH];
      intros n conts0 cache0 n' conts0' cache0' Hb Hs.
    - inversion Hs. now subst.
    - cbn [scan_records] in Hs.
      destruct (lookup "ANN" (INFO vcf_rec)); [|eapply IH; eauto].
      bind_inv Hs. destruct a; [|eapply IH; eauto].
      bind_inv Hs. destruct a as [conts1 cache1].
      eapply IH; [|exact Hs]. eapply scan_samples_bounded; eauto. }
  assert (Hb : Forall (bounded nr) conts).
  { eapply Hgen; [|exact H]. unfold prep_containers. apply Forall_forall.
    intros c Hc. apply in_map_iff in Hc. destruct Hc as [s [<- _]].
    unfold bounded. cbn. lia. }
  intros samplename effects records Hin.
  rewrite Forall_forall in Hb. destruct (Hb _ Hin) as [Hm [Hr Hlen]].
  cbn [fst snd] in *.
  assert (Hsum : length records = (markers records + resolved records)%nat).
  { unfold markers, resolved. clear. induction records as [|[r|] records IH];
      simpl; lia. }
  repeat split; auto; try lia.
  intros Hne. destruct effects; [congruence|]. simpl in Hlen. lia.
Qed.

Lemma py_index_In {A : Type} (l : list A) (i : Z) (x : A) :
  py_index l i = Ok x -> In x l.
Proof.
  unfold py_index, item.
  destruct ((0 <=? i) && (i <? Z.of_nat (length l))).
  - destruct (nth_error l (Z.to_nat i)) eqn:E; intros H; inversion H; subst.
    eapply nth_error_In; eauto.
  - destruct ((i <? 0) && (0 <=? Z.of_nat (length l) + i)); [|discriminate].
    destruct (nth_error l (Z.to_nat (Z.of_nat (length l) + i))) eqn:E;
      intros H; inversion H; subst.
    eapply nth_error_In; eauto.
Qed.

Lemma called_allele_In (vcf_rec : vcf_record) (sgenot : call) (gt : option string) :
  called_allele vcf_rec sgenot = Ok gt -> In gt (ALT vcf_rec).
Proof.
  unfold called_allele. intros H. bind_inv H. bind_inv H. bind_inv H. bind_inv H.
  eapply py_index_In; eauto.
Qed.

Lemma find_proteffect_returns (eff : string) (preds : list string) :
  (forall pred, In pred preds -> (11 <= length (split "|" pred))%nat) ->
  (exists pred, In pred preds /\ carries pred eff) ->
  exists p, find_proteffect eff preds = Ok (Some p).
Proof.
  induction preds as [|pred preds IH]; intros Hlen [p [Hin Hc]]; [destruct Hin|].
  cbn [find_proteffect].
  assert (H11 : (11 <= length (split "|" pred))%nat) by (apply Hlen; now left).
  assert (Hi : forall i, (i < 11)%nat -> exists x, item (split "|" pred) i = Ok x).
  { intros i Hi. unfold item.
    destruct (nth_error (split "|" pred) i) eqn:E; [eauto|].
    apply nth_error_None in E. lia. }
  destruct (Hi 1%nat) as [it1 H1]; [lia|]. destruct (Hi 10%nat) as [it10 H10]; [lia|].
  rewrite H1. cbn [bind].
  destruct (str_in eff (split "&" it1)) eqn:Ein.
  - rewrite H10. cbn [bind]. eauto.
  - apply IH; [intros q Hq; apply Hlen; now right|].
    destruct Hin as [<-|Hin]; [|eauto].
    exfalso. destruct Hc as [it1' [H1' Hin']]. apply item_nth_error in H1.
    rewrite H1 in H1'. inversion H1'. subst it1'.
    apply str_in_In in Hin'. congruence.
Qed.

(** X18. The scan and the chart compose: for a record the scan of a gene
    retained, the chart row is written, without any exception, as soon as
    every annotation of the record has at least eleven fields and no
    alternate allele of the record is null. *)
Theorem chart_row_for_retained (o : options) (symbol : string)
    (vcf_records : list vcf_record) (samplenames : list string)
    (cache cache' : transcripts) (calls : list (string * gene_call))
    (samplename : string) (c : gene_call) (vcf_rec : vcf_record) (eff : string) :
  gene_overview o symbol vcf_records samplenames cache = Ok (calls, cache') ->
  In (samplename, c) calls ->
  rdf_entry c = Some (Some vcf_rec, eff) ->
  (forall preds pred,
     lookup "ANN" (INFO vcf_rec) = Some (InfoStrs preds) -> In pred preds ->
     (11 <= length (split "|" pred))%nat) ->
  ~ In None (ALT vcf_rec) ->
  exists row,
    chart_rows_of_call o samplename symbol c = Ok [row] /\
    Hugo_Symbol row = symbol /\ Sample_ID row = samplename /\
    Chromosome row = CHROM vcf_rec /\ Start_Position row = POS vcf_rec /\
    Reference_Allele row = REF vcf_rec /\
    lookup eff mapping = Some (Mutation_Type row).
Proof.
  intros H Hin Hrdf Hfields Halt.
  assert (Hfacts : (exists name, lookup eff mapping = Some name) /\
                   slot_of o symbol samplename vcf_records eff (Some vcf_rec)).
  { unfold gene_overview in H. bind_inv H. destruct a as [[nr conts] cache1].
    bind_inv H. inversion H. subst. clear H.
    destruct (scan_records_paired o symbol vcf_records vcf_records _ _ _ _ _ _
                (fun x Hx => Hx)
                (prep_containers_paired o symbol vcf_records samplenames) E)
      as [Hp _].
    destruct (aggregate_samples_In _ _ _ _ _ _ E0 Hin) as [effects [records [Hc Ha]]].
    rewrite Forall_forall in Hp. specialize (Hp _ Hc). unfold paired in Hp.
    cbn [fst snd] in Hp.
    unfold aggregate in Ha. destruct (length effects <=? 0)%nat.
    { inversion Ha. subst c. discriminate. }
    bind_inv Ha. rename a into loc. bind_inv Ha. rename a into eff'.
    destruct (str_in eff' (toselect o)).
    2:{ destruct (_ <=? _); inversion Ha; subst c; discriminate. }
    destruct (lookup eff' mapping) as [name|] eqn:Emap.
    2:{ inversion Ha. subst c. discriminate. }
    bind_inv Ha. inversion Ha. subst c. cbn in Hrdf. inversion Hrdf. subst.
    split; [eauto|]. apply item_nth_error in E2, E3.
    apply (Forall2_nth_error _ _ _ Hp _ _ _ E2 E3). }
  destruct Hfacts as [[name Hname] [_ [Hann [sg [gt [c1 [c2 [q [Hg [Hq [Hgt Heff]]]]]]]]]]].
  assert (Hallele : exists allele, gt = Some allele).
  { destruct gt as [allele|]; [eauto|]. exfalso. apply Halt.
    eapply called_allele_In; eauto. }
  destruct Hallele as [allele ->].
  unfold annotated in Hann.
  destruct (lookup "ANN" (INFO vcf_rec)) as [[l|preds]|] eqn:Eann; try discriminate.
  assert (Hcarried : exists pred, In pred preds /\ carries pred eff).
  { unfold find_effects in Heff. rewrite Eann in Heff.
    destruct (scan_annotations_spec _ _ _ _ _ _ _ _ severity_None Heff)
      as [vr [_ [_ [_ [_ [->|[pred [Hp [_ [Hc _]]]]]]]]]]; [discriminate | eauto]. }
  destruct (find_proteffect_returns eff preds (fun pred => Hfields preds pred eq_refl)
              Hcarried) as [p Hp].
  unfold chart_rows_of_call. rewrite Hrdf. unfold chart_row_of.
  rewrite Hg. cbn [bind]. rewrite Hq. cbn [bind]. rewrite Hgt. cbn [bind].
  unfold getitem. rewrite Eann. cbn [bind]. rewrite Hp. cbn [bind].
  rewrite Hname. cbn [bind]. eexists. split; [reflexivity|].
  cbn. repeat split; auto.
Qed.

End Core.

(** * The properties on the sample inputs *)

(** On [rec_pass] the step appends "clean" and the resolved effect. *)
Lemma scan_sample_appends_witness :
  exists depth_ok,
    check_depth default_options (sgenot_of rec_pass) = Ok depth_ok /\
    if (depth_ok : bool) then
      exists PASS,
        qc_filter sample_float default_options rec_pass (sgenot_of rec_pass) [] []
        = Ok (PASS, [] ++ ["clean"], [] ++ [None]) /\
        if (PASS : bool) then
          exists sample_gt eff,
            called_allele rec_pass (sgenot_of rec_pass) = Ok sample_gt /\
            find_effects sample_canonical default_options rec_pass sample_gt []
            = Ok (eff, []) /\
            ["clean"; "missense_variant"] = [] ++ ["clean"; eff] /\
            [None; Some rec_pass] = [] ++ [None; Some rec_pass]
        else ["clean"; "missense_variant"] = [] ++ ["clean"] /\
             [None; Some rec_pass] = [] ++ [None]
    else ["clean"; "missense_variant"] = [] /\ [None; Some rec_pass] = [].
Proof.
  apply (scan_sample_appends sample_float sample_canonical default_options
           rec_pass "S1" (sgenot_of rec_pass) [] ["clean"; "missense_variant"]
           [] [None; Some rec_pass] [] []);
    vm_compute; reflexivity.
Defined.

(** A position that passes every stage gets two entries, "clean" and the
    effect; a position whose depth check fails gets none. *)
Lemma scan_sample_not_one_entry :
  check_ad default_options (sgenot_of rec_pass) = true /\
  scan_sample sample_float sample_canonical default_options rec_pass "S1" [] [] []
  = Ok (["clean"; "missense_variant"], [None; Some rec_pass], []) /\
  check_ad default_options (sgenot_of rec_lowdepth) = true /\
  scan_sample sample_float sample_canonical default_options rec_lowdepth "S1" [] [] []
  = Ok ([], [], []).
Proof. repeat split; vm_compute; reflexivity. Qed.

(** "splice_donor_variant" is reportable at the default threshold and has
    no MAF name. *)
Lemma unmapped_effect_no_row_witness :
  exists c,
    aggregate default_options 1 ["clean"; "splice_donor_variant"]
              [None; Some rec_splice] = Ok c /\
    df_entry c = "splice_donor_variant" /\
    cdf_entry c = count_selected default_options ["clean"; "splice_donor_variant"] /\
    rdf_entry c = None /\
    chart_rows_of_call sample_round2 default_options "S1" "PIK3CA" c = Ok [].
Proof.
  apply (unmapped_effect_no_row sample_round2 default_options 1
           ["clean"; "splice_donor_variant"] [None; Some rec_splice]
           1%nat "splice_donor_variant" "S1" "PIK3CA");
    vm_compute; reflexivity.
Defined.

(** The gene is called "splice_donor_variant" for the sample, no error is
    raised anywhere, and the chart gets no row for the pair. *)
Lemma unmapped_effect_not_surfaced :
  str_in "splice_donor_variant" (toselect default_options) = true /\
  lookup "splice_donor_variant" mapping = None /\
  exists c,
    gene_overview sample_float sample_canonical default_options "PIK3CA"
                  [rec_splice] ["S1"] []
    = Ok ([("S1", c)], []) /\
    df_entry c = "splice_donor_variant" /\ cdf_entry c = 1 /\
    rdf_entry c = None /\
    chart_rows_of_call sample_round2 default_options "S1" "PIK3CA" c = Ok [].
Proof.
  split; [reflexivity|]. split; [reflexivity|].
  eexists. split; [vm_compute; reflexivity|]. repeat split.
Qed.

(** With a synonymous and a stop-gained annotation the resolver returns
    "stop_gained", not the less severe term. *)
Lemma find_effects_most_severe_witness :
  find_effects sample_canonical default_options rec_two (Some "T") []
  = Ok ("stop_gained", []) /\
  "stop_gained" <> "synonymous_variant".
Proof.
  assert (H : find_effects sample_canonical default_options rec_two (Some "T") []
              = Ok ("stop_gained", [])) by (vm_compute; reflexivity).
  split; [exact H|].
  destruct (proj1 (find_effects_most_severe sample_canonical default_options
                     rec_two (Some "T") []) "stop_gained" [] H) as [_ [Hmax _]].
  apply (Hmax [ann_of "T" "synonymous_variant" "p.Gly118Gly";
               ann_of "T" "stop_gained" "p.Gly118*"]
              (ann_of "T" "stop_gained" "p.Gly118*")
              "stop_gained" "synonymous_variant" 4%Q 1%Q).
  - reflexivity.
  - right. now left.
  - split; [reflexivity | discriminate].
  - exists "stop_gained". split; [reflexivity | now left].
  - reflexivity.
  - reflexivity.
  - reflexivity.
Defined.

(** Three positions of the gene (the record of another gene is not
    counted) and one "clean" entry for the sample, a third of the
    positions: the call is "clean". *)
Lemma clean_call_floor_of_half_witness :
  exists c,
    aggregate default_options 3 ["clean"] [None] = Ok c /\
    df_entry c = "clean" /\ 2 * count_clean ["clean"] < 3.
Proof.
  destruct (clean_call_floor_of_half sample_float sample_canonical default_options
              "PIK3CA" [rec_lowvaf; rec_lowdepth; rec_other_gene; rec_lowdepth]
              ["S1"] [] [] 3 [("S1", (["clean"], [None]))] "S1" ["clean"] [None])
    as [_ [_ [_ [c [Hc [_ [_ [_ Hodd]]]]]]]].
  - vm_compute. reflexivity.
  - now left.
  - discriminate.
  - intros e [<-|[]]. reflexivity.
  - exists c. split; [exact Hc|]. split; [apply Hodd; reflexivity | reflexivity].
Defined.

Lemma clean_call_below_half :
  gene_overview sample_float sample_canonical default_options "PIK3CA"
                [rec_lowvaf; rec_lowdepth; rec_other_gene; rec_lowdepth] ["S1"] []
  = Ok ([("S1", {| df_entry := "clean"; cdf_entry := 0; rdf_entry := None |})], []) /\
  scan_records sample_float sample_canonical default_options "PIK3CA"
               [rec_lowvaf; rec_lowdepth; rec_other_gene; rec_lowdepth]
               0 (prep_containers ["S1"]) []
  = Ok (3, [("S1", (["clean"], [None]))], []).
Proof. split; vm_compute; reflexivity. Qed.

(** Two entries of severity 4: the first of them is selected. *)
Lemma select_maximum_effect_first_witness :
  exists loc eff v,
    select_maximum_effect ["clean"; "stop_gained"; "frameshift_variant"] = Ok loc /\
    item ["clean"; "stop_gained"; "frameshift_variant"] loc = Ok eff /\
    severity eff = Ok v /\
    (forall j e w,
       nth_error ["clean"; "stop_gained"; "frameshift_variant"] j = Some e ->
       severity e = Ok w -> (w <= v)%Q) /\
    (forall j e w, (j < loc)%nat ->
       nth_error ["clean"; "stop_gained"; "frameshift_variant"] j = Some e ->
       severity e = Ok w -> (w < v)%Q).
Proof.
  apply (select_maximum_effect_first ["clean"; "stop_gained"; "frameshift_variant"]).
  - discriminate.
  - repeat constructor.
Defined.

Lemma select_maximum_effect_tie :
  select_maximum_effect ["clean"; "stop_gained"; "frameshift_variant"] = Ok 1%nat.
Proof. reflexivity. Qed.

(** The call for [rec_pass] is a key of the vocabulary. *)
Lemma aggregate_classification_witness :
  (exists c, aggregate default_options 1 ["clean"; "missense_variant"]
                       [None; Some rec_pass] = Ok c) /\
  ("missense_variant" = "None" \/ "missense_variant" = "clean" \/
   In "missense_variant" (map fst vocabulary)).
Proof.
  destruct (aggregate_classification sample_float sample_canonical default_options 1)
    as [_ [Hret [Hin _]]].
  split.
  - apply Hret; [repeat constructor | reflexivity].
  - apply (Hin ["clean"; "missense_variant"] [None; Some rec_pass]
               {| df_entry := "missense_variant"; cdf_entry := 1;
                  rdf_entry := Some (Some rec_pass, "missense_variant") |}).
    vm_compute. reflexivity.
Defined.

(** On [rec_text], whose frequencies are the texts "0.01" and "0.2", the
    gate returns and fails at the default threshold 0.05. *)
Lemma popfreq_gate_spec_witness :
  exists pf m,
    find_popfreq sample_float rec_text = Ok pf /\ py_max pf = Ok m /\
    false = Qle_bool m (popfreq default_options) /\
    (forall v, In v pf <->
               v = 0%Q \/ frequency_of sample_float FREQ_FIELDS (INFO rec_text) v) /\
    (false = true <->
     (0 <= popfreq default_options)%Q /\
     forall v, frequency_of sample_float FREQ_FIELDS (INFO rec_text) v ->
               (v <= popfreq default_options)%Q) /\
    ((forall field, In field FREQ_FIELDS -> lookup field (INFO rec_text) = None) ->
     pf = [0%Q] /\ m = 0%Q).
Proof.
  exact (popfreq_gate_spec sample_float default_options rec_text).
Defined.

(** [rec_common] carries a population frequency of 0.2 and a null, and
    [rec_text] the texts "0.01" and "0.2": the maximum is 0.2 and the gate
    fails at the default threshold 0.05, which the text "0.01" alone
    passes; on [rec_text_bad] the text "." makes [float] raise. *)
Lemma popfreq_gate_values :
  find_popfreq sample_float rec_common = Ok [0%Q; (2 # 10)%Q; 0%Q] /\
  popfreq_gate sample_float default_options rec_common = Ok false /\
  find_popfreq sample_float rec_pass = Ok [0%Q] /\
  popfreq_gate sample_float default_options rec_pass = Ok true /\
  find_popfreq sample_float rec_text = Ok [0%Q; (1 # 100)%Q; (2 # 10)%Q] /\
  popfreq_gate sample_float default_options rec_text = Ok false /\
  popfreq_gate sample_float default_options rec_text_rare = Ok true /\
  popfreq_gate sample_float default_options rec_text_bad = Raise ValueError.
Proof. repeat split. Qed.

(** [rec_pass] passes at the default minimum depth 10, hence at 5. *)
Lemma qc_filter_depth_antitone_witness :
  5 <= mindepth default_options /\
  qc_filter sample_float (with_mindepth default_options 5) rec_pass
            (sgenot_of rec_pass) [] []
  = Ok (true, ["clean"], [None]).
Proof.
  split; [vm_compute; discriminate|].
  apply (proj1 (proj2 (qc_filter_depth_antitone sample_float default_options 5
                         rec_pass (sgenot_of rec_pass) [] []
                         ltac:(vm_compute; discriminate)))).
  vm_compute. reflexivity.
Defined.


(** [rec_no_mleaf] passes the first four stages and has no "MLEAF". *)
Lemma cohort_gate_requires_MLEAF_witness :
  qc_filter sample_float default_options rec_no_mleaf (sgenot_of rec_no_mleaf) [] []
  = Raise KeyError.
Proof.
  apply (proj1 (cohort_gate_requires_MLEAF sample_float default_options rec_no_mleaf
                  (sgenot_of rec_no_mleaf) [] []
                  ltac:(vm_compute; reflexivity) ltac:(vm_compute; reflexivity)
                  ltac:(vm_compute; reflexivity) ltac:(vm_compute; reflexivity))
               ltac:(vm_compute; reflexivity)) with (q := (15 # 20)%Q).
  vm_compute. reflexivity.
Defined.

(** * The transcript cache across calls of the resolver *)

Section Replay.

(** Two remote services: the one the first call talks to, and any other. *)
Variable lookup1 lookup2 : string -> result string.

Lemma extends_refl (c : list (string * string)) : extends c c.
Proof. intros g tr H. exact H. Qed.

Lemma extends_trans (c1 c2 c3 : list (string * string)) :
  extends c1 c2 -> extends c2 c3 -> extends c1 c3.
Proof. intros H12 H23 g tr H. auto. Qed.

Lemma canonical_only_replay (o : options) (items : list string)
    (c c' : transcripts) (keep : bool) :
  canonical_only lookup1 o items c = Ok (keep, c') ->
  extends c c' /\
  forall F, extends c' F -> canonical_only lookup2 o items F = Ok (keep, F).
Proof.
  unfold canonical_only. destruct (canonical o).
  2:{ intros H. inversion H. subst. split; [apply extends_refl | reflexivity]. }
  intros H. apply bind_Ok_inv in H. destruct H as [gene [E H]]. rewrite E.
  cbn [bind].
  destruct (String.length gene <=? 1)%nat.
  { inversion H. subst. split; [apply extends_refl | reflexivity]. }
  apply bind_Ok_inv in H. destruct H as [c1 [E0 H]].
  apply bind_Ok_inv in H. destruct H as [it6 [E1 H]].
  apply bind_Ok_inv in H. destruct H as [tr [E2 H]].
  assert (Hc1 : extends c c1).
  { destruct (lookup gene c) as [tr0|] eqn:Eg.
    - inversion E0. apply extends_refl.
    - apply bind_Ok_inv in E0. destruct E0 as [tr1 [_ E0]]. inversion E0.
      intros g t Hg. rewrite lookup_app, Hg. reflexivity. }
  assert (Hc' : c' = c1) by (destruct (negb (String.eqb it6 tr)); now inversion H).
  subst c'. split; [assumption|]. intros F HF.
  unfold getitem in E2. destruct (lookup gene c1) as [tr'|] eqn:Eg1; inversion E2.
  subst tr'. rewrite (HF gene tr Eg1). cbn [bind]. rewrite E1. cbn [bind].
  unfold getitem. rewrite (HF gene tr Eg1). cbn [bind].
  destruct (negb (String.eqb it6 tr)); now inversion H.
Qed.

Lemma scan_annotations_replay (o : options) (gt : string) (preds : list string) :
  forall m c r c',
    scan_annotations lookup1 o preds gt m c = Ok (r, c') ->
    extends c c' /\
    forall F, extends c' F -> scan_annotations lookup2 o preds gt m F = Ok (r, F).
Proof.
  induction preds as [|pred preds IH]; intros m c r c' H.
  - inversion H. subst. split; [apply extends_refl | reflexivity].
  - cbn [scan_annotations] in *.
    apply bind_Ok_inv in H. destruct H as [it0 [E H]]. rewrite E. cbn [bind].
    destruct (negb (String.eqb it0 gt)); [now apply IH|].
    apply bind_Ok_inv in H. destruct H as [[keep c1] [E0 H]].
    destruct (canonical_only_replay _ _ _ _ _ E0) as [Hc1 Hrep].
    destruct keep.
    + apply bind_Ok_inv in H. destruct H as [it1 [E1 H]].
      apply bind_Ok_inv in H. destruct H as [m' [E2 H]].
      destruct (IH _ _ _ _ H) as [Hc' Hrest].
      split; [eapply extends_trans; eauto|]. intros F HF.
      rewrite (Hrep F (extends_trans _ _ _ Hc' HF)). cbn [bind].
      rewrite E1. cbn [bind]. rewrite E2. cbn [bind]. now apply Hrest.
    + destruct (IH _ _ _ _ H) as [Hc' Hrest].
      split; [eapply extends_trans; eauto|]. intros F HF.
      rewrite (Hrep F (extends_trans _ _ _ Hc' HF)). cbn [bind]. now apply Hrest.
Qed.

(** X10. The resolver only adds to the transcript cache, and resolving the
    same record and allele again with the cache a first call left (or any
    cache extending it) returns the same effect, leaves the cache as it
    is, and does not depend on the remote service any more. *)
Theorem find_effects_replay (o : options) (vcf_rec : vcf_record)
    (sample_gt : option string) (cache cache' : transcripts) (r : string) :
  find_effects lookup1 o vcf_rec sample_gt cache = Ok (r, cache') ->
  extends cache cache' /\
  forall F, extends cache' F ->
            find_effects lookup2 o vcf_rec sample_gt F = Ok (r, F).
Proof.
  unfold find_effects.
  destruct (lookup "ANN" (INFO vcf_rec)) as [[[|x l]|preds]|].
  - intros H. inversion H. split; [apply extends_refl | reflexivity].
  - discriminate.
  - apply scan_annotations_replay.
  - intros H. inversion H. split; [apply extends_refl | reflexivity].
Qed.

End Replay.

(** * The further properties on the sample inputs *)

Lemma gatk_vaf_defined_witness :
  exists a total,
    alt_support default_options (sgenot_of rec_pass) = Ok a /\
    sum_from 0 [Some 5; Some 15] = Ok total /\
    total <> 0 /\ 0 <= a <= total.
Proof.
  destruct (gatk_vaf_defined default_options (sgenot_of rec_pass) [Some 5; Some 15]
              eq_refl eq_refl ltac:(vm_compute; discriminate) eq_refl)
    as [a [total [Ha [_ [_ [Ht [_ [_ [Hnz Hr]]]]]]]]].
  exists a, total. split; [exact Ha|]. split; [exact Ht|]. split; [exact Hnz|].
  apply Hr. repeat constructor; vm_compute; discriminate.
Defined.

Lemma scalar_depth_filter_raises_witness :
  exists e, qc_filter sample_float freeb_options rec_pass sgenot_freeb [] [] = Raise e /\
            (forall a, alt_support freeb_options sgenot_freeb = Ok a -> e = TypeError).
Proof.
  apply (proj1 (scalar_depth_filter_raises sample_float sample_canonical freeb_options
                  rec_pass sgenot_freeb [] [] 20 eq_refl
                  ltac:(vm_compute; discriminate))).
Defined.

Lemma qc_filter_relaxed_witness :
  qc_filter sample_float loose_options rec_pass (sgenot_of rec_pass) [] []
  = Ok (true, ["clean"], [None]).
Proof.
  apply (qc_filter_relaxed sample_float default_options loose_options rec_pass
           (sgenot_of rec_pass) [] ["clean"] [] [None]).
  - repeat split; vm_compute; discriminate.
  - vm_compute. reflexivity.
Defined.

Lemma find_effects_order_independent_witness :
  exists v v', severity "stop_gained" = Ok v /\ severity "stop_gained" = Ok v' /\
               (v == v')%Q.
Proof.
  apply (find_effects_order_independent sample_canonical default_options
           rec_two rec_two_swapped (Some "T") [] [] []
           [ann_of "T" "synonymous_variant" "p.Gly118Gly";
            ann_of "T" "stop_gained" "p.Gly118*"]
           [ann_of "T" "stop_gained" "p.Gly118*";
            ann_of "T" "synonymous_variant" "p.Gly118Gly"]).
  - reflexivity.
  - reflexivity.
  - intros p. split; (intros [H|[H|[]]]; [right; left | left]; exact H).
  - vm_compute. reflexivity.
  - vm_compute. reflexivity.
Defined.

Lemma count_agrees_with_call_witness :
  exists loc,
    select_maximum_effect ["clean"; "missense_variant"] = Ok loc /\
    item ["clean"; "missense_variant"] loc = Ok "missense_variant" /\
    str_in "missense_variant" (toselect default_options) = true.
Proof.
  apply (proj1 (proj1 (proj2 (count_agrees_with_call default_options 1
           ["clean"; "missense_variant"] [None; Some rec_pass]
           {| df_entry := "missense_variant"; cdf_entry := 1;
              rdf_entry := Some (Some rec_pass, "missense_variant") |}
           ltac:(vm_compute; reflexivity))))).
  vm_compute. reflexivity.
Defined.

Lemma retained_record_resolved_witness :
  "missense_variant" = "missense_variant" /\
  (exists name, lookup "missense_variant" mapping = Some name) /\
  exists vcf_rec,
    Some rec_pass = Some vcf_rec /\
    slot_of sample_canonical default_options "PIK3CA" "S1" [rec_pass]
            "missense_variant" (Some rec_pass).
Proof.
  apply (proj2 (retained_record_resolved sample_float sample_canonical default_options
                  "PIK3CA" [rec_pass] ["S1"] [] []
                  [("S1", {| df_entry := "missense_variant"; cdf_entry := 1;
                             rdf_entry := Some (Some rec_pass, "missense_variant") |})]
                  ltac:(vm_compute; reflexivity))
               "S1" {| df_entry := "missense_variant"; cdf_entry := 1;
                       rdf_entry := Some (Some rec_pass, "missense_variant") |}
               (Some rec_pass) "missense_variant").
  - now left.
  - reflexivity.
Defined.

(** One sample, a format that is not supported: the record of another gene
    is skipped, the record annotated for PIK3CA ends the scan. *)
Lemma unsupported_format_raises_witness :
  sample_keys varscan_options ["S1"] = Ok [None] /\
  scan_records_keys sample_float sample_canonical varscan_options "PIK3CA"
                    [rec_other_gene] 0 [(None, ([], []))] []
  = Ok (0, [(None, ([], []))], []) /\
  scan_records_keys sample_float sample_canonical varscan_options "PIK3CA"
                    ([rec_other_gene] ++ [rec_pass]) 0 [(None, ([], []))] []
  = Raise KeyError.
Proof.
  split; [reflexivity|].
  apply (unsupported_format_raises sample_float sample_canonical varscan_options
           ["S1"] [None] "PIK3CA" [rec_other_gene] [] rec_pass
           (InfoStrs [ann_of "T" "missense_variant" "p.Gly118Val"])
           [(None, ([], []))] [] 0
           ltac:(vm_compute; discriminate) ltac:(vm_compute; discriminate)
           eq_refl ltac:(discriminate)).
  - intros key [<-|[]]. now left.
  - constructor; [|constructor]. intros a Ha. vm_compute in Ha.
    inversion Ha. reflexivity.
  - reflexivity.
  - reflexivity.
Defined.

Lemma called_allele_of_genotype_witness :
  called_allele rec_pass (sgenot_of rec_pass) = py_index (ALT rec_pass) (Z.of_nat 1 - 1) /\
  called_allele rec_pass sgenot_phased
  = py_index (ALT rec_pass) (10 * Z.of_nat 1 + Z.of_nat 1 - 1).
Proof.
  split.
  - apply (proj1 (called_allele_of_genotype rec_pass (sgenot_of rec_pass) 0 1
                    ltac:(repeat constructor) ltac:(repeat constructor))).
    reflexivity.
  - apply (proj2 (called_allele_of_genotype rec_pass sgenot_phased 1 1
                    ltac:(repeat constructor) ltac:(repeat constructor))).
    reflexivity.
Defined.

(** The phased genotype "1|1" is read as allele index 11. *)
Lemma phased_genotype_out_of_range :
  called_allele rec_pass sgenot_phased = Raise IndexError.
Proof. reflexivity. Qed.

Lemma reference_call_takes_last_ALT_witness :
  called_allele rec_pass sgenot_homref = Ok (Some "T").
Proof.
  apply (reference_call_takes_last_ALT rec_pass sgenot_homref 0 [] (Some "T")
           ltac:(repeat constructor)); reflexivity.
Defined.

Lemma canonical_of_answer_spec_witness :
  canonical_of_answer sample_answer = Ok "ENST00000263967".
Proof.
  apply (proj1 (proj2 (canonical_of_answer_spec sample_answer))
           [ {| entry_id := "ENST00000462255"; entry_is_canonical := 0 |} ]
           {| entry_id := "ENST00000263967"; entry_is_canonical := 1 |} []).
  - reflexivity.
  - constructor; [discriminate | constructor].
  - reflexivity.
Defined.

Lemma sample_keys_spec_witness :
  sample_keys freeb_options ["S1"; "S2"] = Raise IndexError.
Proof.
  apply (proj1 (proj2 (sample_keys_spec freeb_options ["S1"; "S2"])));
    [reflexivity | discriminate].
Defined.

Lemma read_genelist_first_seen_witness :
  exists symbols,
    Forall2 (fun line s => genesymbol_of line = Ok s) sample_lines symbols /\
    ["PIK3CA"; "KRAS"] = first_seen [] symbols /\ NoDup ["PIK3CA"; "KRAS"] /\
    Forall2 (fun s g => sample_geneinfo s = Ok g) ["PIK3CA"; "KRAS"]
            [gene_PIK3CA; gene_KRAS].
Proof.
  apply (proj2 (read_genelist_first_seen sample_geneinfo sample_lines)).
  vm_compute. reflexivity.
Defined.

Lemma process_genes_gene_keys_witness :
  exists tabs',
    process_genes sample_float sample_canonical sample_fetch default_options
                  [gene_PIK3CA; gene_KRAS]
                  (map (fun s => (s, fresh_rows)) ["S1"]) []
    = Ok (tabs', []) /\
    map fst tabs' = ["S1"] /\
    forall samplename rows,
      In (samplename, rows) tabs' ->
      (forall symbol, lookup symbol (df_row rows) <> None <->
                      In symbol (map SYMBOL [gene_PIK3CA; gene_KRAS])) /\
      (forall symbol, lookup symbol (cdf_row rows) <> None <->
                      In symbol (map SYMBOL (filter (fetched sample_fetch)
                                                    [gene_PIK3CA; gene_KRAS]))) /\
      NoDup (map fst (df_row rows)) /\ NoDup (map fst (cdf_row rows)).
Proof.
  eexists. split; [vm_compute; reflexivity|].
  match goal with
  | |- map fst ?t = _ /\ _ =>
      destruct (process_genes_gene_keys sample_float sample_canonical sample_fetch
                  default_options [gene_PIK3CA; gene_KRAS] ["S1"] [] [] t
                  ltac:(vm_compute; reflexivity)) as [H1 [H2 _]]
  end.
  split; [exact H1 | exact H2].
Defined.

(** The region query raises [ValueError] for KRAS: the gene is a key of the
    overview row, with the entry "None", and no key of the count row. *)
Lemma process_genes_columns_differ :
  exists rows,
    process_genes sample_float sample_canonical sample_fetch default_options
                  [gene_PIK3CA; gene_KRAS]
                  (map (fun s => (s, fresh_rows)) ["S1"]) []
    = Ok ([("S1", rows)], []) /\
    lookup "KRAS" (df_row rows) = Some "None" /\
    lookup "KRAS" (cdf_row rows) = None /\
    lookup "PIK3CA" (cdf_row rows) <> None.
Proof.
  eexists. split; [vm_compute; reflexivity|].
  split; [reflexivity|]. split; [reflexivity | discriminate].
Qed.

Lemma gene_step_no_records_witness :
  exists tabs',
    gene_step sample_float sample_canonical sample_fetch default_options gene_KRAS
              (map (fun s => (s, fresh_rows)) ["S1"]) []
    = Ok (tabs', []) /\
    map fst tabs' = map fst (map (fun s => (s, fresh_rows)) ["S1"]).
Proof.
  destruct (gene_step_no_records sample_float sample_canonical sample_fetch
              default_options gene_KRAS (map (fun s => (s, fresh_rows)) ["S1"]) []
              eq_refl) as [tabs' [H1 [H2 _]]].
  exists tabs'. split; [exact H1 | exact H2].
Defined.

Lemma cohfreq_gate_spec_witness :
  exists b,
    cohfreq_gate default_options rec_pass = Ok b /\
    (b = true <->
     forall x, In (Some x) [Some (2 # 100)%Q] -> (x <= cohfreq default_options)%Q).
Proof.
  apply (proj2 (proj1 (cohfreq_gate_spec default_options rec_pass)
                  [Some (2 # 100)%Q] eq_refl)).
  discriminate.
Defined.

(** A null among the cohort frequencies raises nothing and takes no part. *)
Lemma cohfreq_gate_null :
  cohfreq_gate default_options rec_null_mleaf = Ok true /\
  cohfreq_gate default_options rec_text_mleaf = Ok false.
Proof. split; reflexivity. Qed.

Lemma scan_records_bounded_witness :
  Z.of_nat (markers [None]) <= 2 /\
  (resolved [None] <= markers [None])%nat /\
  length ["clean"] = length [@None vcf_record] /\
  Z.of_nat (length ["clean"]) <= 2 * 2 /\
  (["clean"] <> [] -> 1 <= 2).
Proof.
  apply (scan_records_bounded sample_float sample_canonical default_options
           "PIK3CA" [rec_lowvaf; rec_lowdepth] ["S1"] [] [] 2
           [("S1", (["clean"], [None]))] ltac:(vm_compute; reflexivity)
           "S1" ["clean"] [None]).
  now left.
Defined.

Lemma chart_row_for_retained_witness :
  exists row,
    chart_rows_of_call sample_round2 default_options "S1" "PIK3CA"
      {| df_entry := "missense_variant"; cdf_entry := 1;
         rdf_entry := Some (Some rec_pass, "missense_variant") |}
    = Ok [row] /\
    Hugo_Symbol row = "PIK3CA" /\ Sample_ID row = "S1" /\
    Chromosome row = CHROM rec_pass /\ Start_Position row = POS rec_pass /\
    Reference_Allele row = REF rec_pass /\
    lookup "missense_variant" mapping = Some (Mutation_Type row).
Proof.
  apply (chart_row_for_retained sample_float sample_round2 sample_canonical
           default_options "PIK3CA" [rec_pass] ["S1"] [] []
           [("S1", {| df_entry := "missense_variant"; cdf_entry := 1;
                      rdf_entry := Some (Some rec_pass, "missense_variant") |})]
           "S1" {| df_entry := "missense_variant"; cdf_entry := 1;
                   rdf_entry := Some (Some rec_pass, "missense_variant") |}
           rec_pass "missense_variant").
  - vm_compute. reflexivity.
  - now left.
  - reflexivity.
  - intros preds pred H Hin. vm_compute in H. inversion H. subst preds.
    destruct Hin as [<-|[]]. vm_compute. repeat constructor.
  - intros [H|[]]. discriminate.
Defined.

(** In canonical-only mode the first resolution of [rec_pass] caches the
    transcript of its gene; a second one gets by without the service. *)
Lemma find_effects_replay_witness :
  find_effects (fun _ => Raise HTTPError) canonical_options rec_pass (Some "T")
               [("ENSG00000121879", "ENST00000263967")]
  = Ok ("missense_variant", [("ENSG00000121879", "ENST00000263967")]).
Proof.
  apply (proj2 (find_effects_replay sample_canonical (fun _ => Raise HTTPError)
                  canonical_options rec_pass (Some "T") []
                  [("ENSG00000121879", "ENST00000263967")] "missense_variant"
                  ltac:(vm_compute; reflexivity))).
  intros g tr H. exact H.
Defined.
